(** * Segment_Slicer.py: a shallow embedding of [SegmentSlicer]

    Floats of the Python code are modelled as exact rationals [Q]; the
    comparisons the code makes ([>=], [<], ...) become boolean tests on [Q].
    Python exceptions are values of a small error monad [result].  Pandas
    columns are lists, a data-frame row ([df.iloc[i].to_dict()]) is the
    record [row]. *)

From Stdlib Require Import String QArith Qabs List Bool Arith Lia Lqa ZArith Sorted.
Import ListNotations.

Set Warnings "-register-all".

(** ** Python runtime: exceptions and the values passed as [coordinates] *)

Inductive exc := TypeError | IndexError | ValueError.

Inductive result (A : Type) : Type :=
| Ok (a : A)
| Raise (e : exc).
Arguments Ok {A} a.
Arguments Raise {A} e.

Definition bind {A B} (m : result A) (f : A -> result B) : result B :=
  match m with
  | Ok a => f a
  | Raise e => Raise e
  end.

Notation "x <- m ;; k" := (bind m (fun x => k))
  (at level 61, m at next level, right associativity).

(** The Python objects that can be given as [coordinates]: [None], a float,
    or a (nested) list/tuple. *)
Inductive pyval : Type :=
| PyNone
| PyFloat (q : Q)
| PyList (l : list pyval).

(** [v[k]] *)
Definition py_getitem (v : pyval) (k : nat) : result pyval :=
  match v with
  | PyList l => match nth_error l k with Some x => Ok x | None => Raise IndexError end
  | _ => Raise TypeError
  end.

(** [float(v)] *)
Definition py_float (v : pyval) : result Q :=
  match v with
  | PyFloat q => Ok q
  | _ => Raise TypeError
  end.

(** [a - b] *)
Definition py_sub (a b : pyval) : result Q :=
  match a, b with
  | PyFloat x, PyFloat y => Ok (x - y)
  | _, _ => Raise TypeError
  end.

(** [len(v)] *)
Definition py_len (v : pyval) : result nat :=
  match v with
  | PyList l => Ok (length l)
  | _ => Raise TypeError
  end.

(** [bool(v)] (numpy arrays, whose truth value raises, are not modelled) *)
Definition py_truthy (v : pyval) : bool :=
  match v with
  | PyNone => false
  | PyFloat q => negb (Qeq_bool q 0)
  | PyList l => match l with [] => false | _ => true end
  end.

(** iteration [for c in v] *)
Definition py_iter (v : pyval) : result (list pyval) :=
  match v with
  | PyList l => Ok l
  | _ => Raise TypeError
  end.

(** [v[a:b]] on a list, with [0 <= a <= b] *)
Definition py_slice (v : pyval) (a b : nat) : result (list pyval) :=
  match v with
  | PyList l => Ok (firstn (b - a) (skipn a l))
  | _ => Raise TypeError
  end.

(** [l[:-k]] *)
Definition py_slice_neg {A} (l : list A) (k : nat) : list A :=
  match k with
  | O => []
  | _ => firstn (length l - k) l
  end.

Fixpoint mapM {A B} (f : A -> result B) (l : list A) : result (list B) :=
  match l with
  | [] => Ok []
  | x :: t => y <- f x ;; ys <- mapM f t ;; Ok (y :: ys)
  end.

(** ** Small numeric helpers *)

Definition qle (x y : Q) : bool := Qle_bool x y.
Definition qlt (x y : Q) : bool := negb (Qle_bool y x).

Fixpoint zip_with {A B C} (f : A -> B -> C) (l1 : list A) (l2 : list B) : list C :=
  match l1, l2 with
  | x :: t1, y :: t2 => f x y :: zip_with f t1 t2
  | _, _ => []
  end.

(** [Series.diff()]: NaN ([None]) at index 0, then first differences. *)
Definition diff (xs : list Q) : list (option Q) :=
  match xs with
  | [] => []
  | _ :: t => None :: zip_with (fun a b => Some (b - a)) xs t
  end.

Fixpoint sum (xs : list Q) : Q :=
  match xs with [] => 0 | x :: t => x + sum t end.

(** [Series.sum()] skips NaN and is 0 on an all-NaN or empty series. *)
Fixpoint sum_skipna (xs : list (option Q)) : Q :=
  match xs with
  | [] => 0
  | Some x :: t => x + sum_skipna t
  | None :: t => sum_skipna t
  end.

(** [Series.mean()], NaN on an empty series *)
Definition mean (xs : list Q) : option Q :=
  match xs with
  | [] => None
  | _ => Some (Qred (sum xs / inject_Z (Z.of_nat (length xs))))
  end.

Definition qmax (x y : Q) : Q := if qlt x y then y else x.
Definition qmin (x y : Q) : Q := if qlt y x then y else x.

(** [Series.max()] / [Series.min()], NaN on an empty series *)
Definition series_max (xs : list Q) : option Q :=
  match xs with [] => None | x :: t => Some (fold_left qmax t x) end.
Definition series_min (xs : list Q) : option Q :=
  match xs with [] => None | x :: t => Some (fold_left qmin t x) end.

(** [Series.var()] (ddof = 1), NaN below two values *)
Definition series_var (xs : list Q) : option Q :=
  match mean xs with
  | Some m =>
      if (2 <=? length xs)%nat
      then Some (Qred (sum (map (fun x => (x - m) * (x - m)) xs)
                       / inject_Z (Z.of_nat (length xs - 1))))
      else None
  | None => None
  end.

(** inclusive index slice [a..b] of a list ([df.loc[a:b]], [iloc[a:b+1]]) *)
Definition slice {A} (l : list A) (a b : nat) : list A :=
  firstn (S b - a) (skipn a l).

(** ** The data frame *)

(** One input sample, as built by [pd.DataFrame({...})] in [cut_segment]. *)
Record point := mkpoint { p_ele : Q; p_distance : Q; p_lat : Q; p_lon : Q }.

(** A row once [grade] and [plot_grade] have been added
    ([df.iloc[i].to_dict()]). *)
Record row := mkrow {
  ele : Q; distance : Q; lat : Q; lon : Q; grade : Q; plot_grade : Q }.

Definition dummy_row : row := mkrow 0 0 0 0 0 0.

(** [pd.DataFrame({'ele': a, 'distance': d, 'lat': la, 'lon': lo})]: the
    columns must have one length, else pandas raises [ValueError]. *)
Definition make_frame (a d la lo : list Q) : result (list point) :=
  if (Nat.eqb (length a) (length d) && Nat.eqb (length a) (length la)
      && Nat.eqb (length a) (length lo))%bool
  then Ok (zip_with (fun '(x, y) '(z, w) => mkpoint x y z w)
             (zip_with pair a d) (zip_with pair la lo))
  else Raise ValueError.

(** ** Grade Calculator: [_calculate_grades] *)

(** [np.where(dist_diff > 0, (elev_diff / dist_diff) * 100, 0)]; a NaN
    difference makes the condition false. *)
Definition where_grade (dd ed : option Q) : Q :=
  match dd with
  | Some d =>
      if qlt 0 d
      then match ed with Some e => (e / d) * 100 | None => 0 end
      else 0
  | None => 0
  end.

Definition calculate_grades (df : list point) : list Q :=
  let dist_diff := diff (map p_distance df) in
  let elev_diff := diff (map p_ele df) in
  zip_with where_grade dist_diff elev_diff.

(** ** Grade Smoother: [_apply_smoothing] *)

(** [window_size = min(window, len(df)); if window_size % 2 == 0: += 1] *)
Definition smoothing_window (window : Z) (n : nat) : Z :=
  let window_size := Z.min window (Z.of_nat n) in
  if Z.even window_size then window_size + 1 else window_size.

(** [rolling(window=w, center=True, min_periods=1).mean()] for an odd [w]:
    the window of position [k] is [k - w/2 .. k + w/2] clipped to the series;
    a window with fewer than [min_periods] values gives NaN ([None]). *)
Definition rolling_window {A} (w : nat) (xs : list A) (k : nat) : list A :=
  slice xs (k - w / 2) (Nat.min (length xs - 1) (k + w / 2)).

Definition rolling_mean (w min_periods : nat) (xs : list Q) : list (option Q) :=
  map (fun k => let vals := rolling_window w xs k in
                if (length vals <? min_periods)%nat then None else mean vals)
      (seq 0 (length xs)).

(** The column assigned to [df['plot_grade']]; NaN never occurs there (see
    [rolling_mean_defined]), the default is unreachable. *)
Definition apply_smoothing (grades : list Q) (window : Z) : result (list Q) :=
  let window_size := smoothing_window window (length grades) in
  if (window_size <? 0)%Z then Raise ValueError
  else Ok (map (fun o => match o with Some v => v | None => 0 end)
               (rolling_mean (Z.to_nat window_size) 1 grades)).

Definition add_columns (df : list point) (g pg : list Q) : list row :=
  zip_with (fun p '(x, y) => mkrow (p_ele p) (p_distance p) (p_lat p) (p_lon p) x y)
           df (zip_with pair g pg).

(** ** Segment records *)

(** The dictionaries appended to the result lists.  Keys that clash with
    other Rocq names are prefixed: ['type'] is [seg_type], ['distance']
    [seg_distance], ['grade'] [seg_grade], ['start_idx'] / ['end_idx']
    [seg_start_idx] / [seg_end_idx].  NaN is [None]; a dictionary without a
    ['sharp_turns'] key has [sharp_turns = None]. *)
Record segment := mkseg {
  seg_type : string;
  category : string;
  start_distance : Q;
  end_distance : Q;
  seg_distance : Q;
  start_altitude : Q;
  end_altitude : Q;
  elevation_gain : Q;
  elevation_loss : Q;
  elevation_change : Q;
  seg_grade : option Q;
  max_grade : option Q;
  min_grade : option Q;
  grade_variance : option Q;
  sharp_turns : option nat;
  seg_start_idx : nat;
  seg_end_idx : nat }.

(** ** Segment Classifier *)

(** [_classify_climb_strava] *)
Definition classify_climb_strava (length_m avg_slope : Q) : string :=
  if qlt avg_slope 3 then "Uncategorized"%string
  else
    let score := length_m * avg_slope in
    if qle 80000 score then "HC"%string
    else if qle 64000 score then "Cat 1"%string
    else if qle 32000 score then "Cat 2"%string
    else if qle 16000 score then "Cat 3"%string
    else if qle 8000 score then "Cat 4"%string
    else "Uncategorized"%string.

(** [_classify_descent] *)
Definition classify_descent (length_m avg_slope : Q) : string :=
  if qlt avg_slope 3 then "Uncategorized"%string
  else
    let score := length_m * avg_slope in
    if qle 64000 score then "Major Descent"%string
    else if qle 32000 score then "Significant Descent"%string
    else if qle 16000 score then "Moderate Descent"%string
    else if qle 8000 score then "Minor Descent"%string
    else "Uncategorized"%string.

(** [_calculate_angle]: the angle in degrees at [p2],
    [np.degrees(np.arccos(np.clip(dot / (norm1 * norm2), -1, 1)))], or the
    value [0] when one vector is null.  The rational model keeps the exact
    data the float is computed from: [AngleArccos dot n1 n2] stands for
    [degrees(arccos(clip(dot / (sqrt n1 * sqrt n2))))]. *)
Inductive angle := AngleZero | AngleArccos (dot norm1_sq norm2_sq : Q).

Definition calculate_angle (p1 p2 p3 : pyval) : result angle :=
  a1 <- py_getitem p1 0 ;; a2 <- py_getitem p2 0 ;; v1x <- py_sub a1 a2 ;;
  b1 <- py_getitem p1 1 ;; b2 <- py_getitem p2 1 ;; v1y <- py_sub b1 b2 ;;
  c3 <- py_getitem p3 0 ;; c2 <- py_getitem p2 0 ;; v2x <- py_sub c3 c2 ;;
  d3 <- py_getitem p3 1 ;; d2 <- py_getitem p2 1 ;; v2y <- py_sub d3 d2 ;;
  let dot_product := v1x * v2x + v1y * v2y in
  let n1 := v1x * v1x + v1y * v1y in
  let n2 := v2x * v2x + v2y * v2y in
  (* norm == 0 iff its square is 0 *)
  if (Qeq_bool n1 0 || Qeq_bool n2 0)%bool then Ok AngleZero
  else Ok (AngleArccos dot_product n1 n2).

(** [angle > 60].  arccos is strictly decreasing and cos 60 = 1/2, so the
    test is [clip(c) < 1/2], i.e. [c < 1/2] (clipping to [-1, 1] does not
    move [c] across 1/2), i.e. [2 dot < sqrt(n1 n2)]: either [dot < 0], or
    [4 dot^2 < n1 n2] on squaring both non-negative sides. *)
Definition angle_gt_60 (a : angle) : bool :=
  match a with
  | AngleZero => false
  | AngleArccos dot n1 n2 => (qlt dot 0 || qlt (4 * (dot * dot)) (n1 * n2))%bool
  end.

(** Python's [for] loop with an accumulator, exceptions propagating. *)
Fixpoint foldM {A B} (f : A -> B -> result A) (l : list B) (a : A) : result A :=
  match l with
  | [] => Ok a
  | x :: t => a' <- f a x ;; foldM f t a'
  end.

(** [_count_sharp_turns(segment_df, coordinates)].  [segment_df] is built by
    [pd.DataFrame(segment_points)] from a list of dictionaries, so its index
    is the default [0 .. len - 1]: [segment_df.index[0] = 0] and
    [segment_df.index[-1] = len(segment_df) - 1]. *)
Definition count_sharp_turns (segment_df : list row) (coordinates : pyval) : result nat :=
  if (negb (py_truthy coordinates) || (length segment_df <? 3)%nat)%bool then Ok 0%nat
  else
    let start_idx := 0%nat in
    let end_idx := (length segment_df - 1)%nat in
    n <- py_len coordinates ;;
    if ((n <=? end_idx)%nat || (n <=? start_idx)%nat)%bool then Ok 0%nat
    else
      segment_coords <- py_slice coordinates start_idx (end_idx + 1) ;;
      foldM (fun sharp_turns i =>
               angle <- calculate_angle (nth (i - 1) segment_coords PyNone)
                                        (nth i segment_coords PyNone)
                                        (nth (i + 1) segment_coords PyNone) ;;
               if (i <? length segment_df - 1)%nat then
                 let dist := distance (nth (i + 1) segment_df dummy_row)
                             - distance (nth (i - 1) segment_df dummy_row) in
                 if (angle_gt_60 angle && qlt dist 50)%bool
                 then Ok (S sharp_turns) else Ok sharp_turns
               else Ok sharp_turns)
            (seq 1 (length segment_coords - 2)) 0%nat.

(** ** Candidate validation *)

(** [df[mask]] for a boolean mask *)
Definition select_by {A} (mask : list bool) (l : list A) : list A :=
  map snd (filter fst (combine mask l)).

(** [segment_df[segment_df['ele'].diff() > 0]['ele'].diff().sum()] *)
Definition climb_gain (pts : list row) : Q :=
  let mask := map (fun o => match o with Some d => qlt 0 d | None => false end)
                  (diff (map ele pts)) in
  sum_skipna (diff (map ele (select_by mask pts))).

(** [abs(segment_df[segment_df['ele'].diff() < 0]['ele'].diff().sum())] *)
Definition descent_loss (pts : list row) : Q :=
  let mask := map (fun o => match o with Some d => qlt d 0 | None => false end)
                  (diff (map ele pts)) in
  Qabs (sum_skipna (diff (map ele (select_by mask pts)))).

Definition first_row (pts : list row) : row := hd dummy_row pts.
Definition last_row (pts : list row) : row := last pts dummy_row.

Definition seg_length (pts : list row) : Q :=
  distance (last_row pts) - distance (first_row pts).

(** [_validate_and_append_climb]; [pd.isna(gain)] never holds since
    [Series.sum] returns 0 on NaN-only data. *)
Definition validate_and_append_climb (climbs_list : list segment) (segment_df : list row)
    (start_idx : nat) (min_length_m min_gain_m : Q) : list segment :=
  if (length segment_df <? 2)%nat then climbs_list
  else
    let length := seg_length segment_df in
    let gain := climb_gain segment_df in
    if (qlt length min_length_m || qlt gain min_gain_m)%bool then climbs_list
    else
      let avg_slope := if qlt 0 length then (gain / length) * 100 else 0 in
      let grades := map plot_grade segment_df in
      let category := classify_climb_strava length avg_slope in
      let segment_type :=
        if String.eqb category "Uncategorized" then "uphill"%string else "climb"%string in
      climbs_list ++
      [mkseg segment_type category
         (distance (first_row segment_df)) (distance (last_row segment_df)) length
         (ele (first_row segment_df)) (ele (last_row segment_df))
         gain 0 gain (Some avg_slope)
         (series_max grades) (series_min grades) (series_var grades)
         None start_idx (start_idx + List.length segment_df - 1)].

(** [_validate_and_append_descent] *)
Definition validate_and_append_descent (descents_list : list segment) (segment_df : list row)
    (start_idx : nat) (min_length_m min_loss_m : Q) (coordinates : pyval)
    : result (list segment) :=
  if (length segment_df <? 2)%nat then Ok descents_list
  else
    let length := seg_length segment_df in
    let loss := descent_loss segment_df in
    if (qlt length min_length_m || qlt loss min_loss_m)%bool then Ok descents_list
    else
      let avg_slope := if qlt 0 length then - ((loss / length) * 100) else 0 in
      let grades := map plot_grade segment_df in
      let category := classify_descent length (Qabs avg_slope) in
      let segment_type :=
        if String.eqb category "Uncategorized" then "downhill"%string else "descent"%string in
      sharp_turns <-
        (if (String.eqb segment_type "descent" && py_truthy coordinates)%bool
         then count_sharp_turns segment_df coordinates else Ok 0%nat) ;;
      Ok (descents_list ++
          [mkseg segment_type category
             (distance (first_row segment_df)) (distance (last_row segment_df)) length
             (ele (first_row segment_df)) (ele (last_row segment_df))
             0 loss (- loss) (Some avg_slope)
             (series_max grades) (series_min grades) (series_var grades)
             (Some (if String.eqb segment_type "descent" then sharp_turns else 0%nat))
             start_idx (start_idx + List.length segment_df - 1)]).

(** ** Climb/Descent Detector *)

(** The keyword parameters of [_detect_climbs] / [_detect_descents]:
    [max_pause_counter_m] is [max_pause_descent_m] (climbs) or
    [max_pause_ascent_m] (descents), [min_change_m] is [min_gain_m] or
    [min_loss_m]. *)
Record detector_params := mkparams {
  start_threshold : Q;
  end_threshold : Q;
  max_pause_length_m : Q;
  max_pause_counter_m : Q;
  min_length_m : Q;
  min_change_m : Q }.

Definition climb_defaults : detector_params := mkparams 3 (3 # 2) 200 15 300 20.
Definition descent_defaults : detector_params := mkparams (-3) (-3 # 2) 200 15 300 20.

(** The string-valued [state] variable. *)
Inductive detector_state := SEARCHING | IN_CLIMB | IN_DESCENT | EVALUATING_PAUSE.

(** The local variables of the scanning loop; [pause_counter] is
    [pause_descent] (climbs) or [pause_ascent] (descents), [found] is the
    list [climbs] / [descents]. *)
Record dstate := mkdstate {
  state : detector_state;
  start_idx : nat;
  segment_points : list row;
  pause_start_idx : nat;
  pause_length : Q;
  pause_counter : Q;
  found : list segment }.

Definition detector_init : dstate := mkdstate SEARCHING 0 [] 0 0 0 [].

(** One iteration [i] of the loop of [_detect_climbs]. *)
Definition climb_step (P : detector_params) (df : list row) (s : dstate) (i : nat) : dstate :=
  let point := nth i df dummy_row in
  let prev := nth (i - 1) df dummy_row in
  let slope := plot_grade point in
  let elev_diff := ele point - ele prev in
  let dist_diff := distance point - distance prev in
  match state s with
  | SEARCHING =>
      if qle (start_threshold P) slope
      then mkdstate IN_CLIMB (i - 1) [prev; point]
             (pause_start_idx s) (pause_length s) (pause_counter s) (found s)
      else s
  | IN_CLIMB =>
      if qle (end_threshold P) slope
      then mkdstate IN_CLIMB (start_idx s) (segment_points s ++ [point])
             (pause_start_idx s) (pause_length s) (pause_counter s) (found s)
      else mkdstate EVALUATING_PAUSE (start_idx s) (segment_points s ++ [point])
             (i - 1) 0 0 (found s)
  | EVALUATING_PAUSE =>
      let pts := segment_points s ++ [point] in
      let pl := pause_length s + dist_diff in
      let pd := if qlt elev_diff 0 then pause_counter s + Qabs elev_diff
                else pause_counter s in
      if qle (end_threshold P) slope
      then mkdstate IN_CLIMB (start_idx s) pts (pause_start_idx s) pl pd (found s)
      else if (qlt (max_pause_length_m P) pl || qlt (max_pause_counter_m P) pd)%bool
      then
        let segment_df := py_slice_neg pts (i - pause_start_idx s) in
        mkdstate SEARCHING (start_idx s) [] (pause_start_idx s) pl pd
          (validate_and_append_climb (found s) segment_df (start_idx s)
             (min_length_m P) (min_change_m P))
      else mkdstate EVALUATING_PAUSE (start_idx s) pts (pause_start_idx s) pl pd (found s)
  | IN_DESCENT => s
  end.

(** The state after the iterations [1 .. n]. *)
Definition climb_run (P : detector_params) (df : list row) (n : nat) : dstate :=
  fold_left (climb_step P df) (seq 1 n) detector_init.

(** [_detect_climbs]: [for i in range(1, len(df))], then the final flush. *)
Definition detect_climbs (P : detector_params) (df : list row) : list segment :=
  let s := climb_run P df (length df - 1) in
  match state s, segment_points s with
  | IN_CLIMB, _ :: _ | EVALUATING_PAUSE, _ :: _ =>
      validate_and_append_climb (found s) (segment_points s) (start_idx s)
        (min_length_m P) (min_change_m P)
  | _, _ => found s
  end.

(** One iteration [i] of the loop of [_detect_descents]. *)
Definition descent_step (P : detector_params) (df : list row) (coordinates : pyval)
    (s : dstate) (i : nat) : result dstate :=
  let point := nth i df dummy_row in
  let prev := nth (i - 1) df dummy_row in
  let slope := plot_grade point in
  let elev_diff := ele point - ele prev in
  let dist_diff := distance point - distance prev in
  match state s with
  | SEARCHING =>
      if qle slope (start_threshold P)
      then Ok (mkdstate IN_DESCENT (i - 1) [prev; point]
                 (pause_start_idx s) (pause_length s) (pause_counter s) (found s))
      else Ok s
  | IN_DESCENT =>
      if qle slope (end_threshold P)
      then Ok (mkdstate IN_DESCENT (start_idx s) (segment_points s ++ [point])
                 (pause_start_idx s) (pause_length s) (pause_counter s) (found s))
      else Ok (mkdstate EVALUATING_PAUSE (start_idx s) (segment_points s ++ [point])
                 (i - 1) 0 0 (found s))
  | EVALUATING_PAUSE =>
      let pts := segment_points s ++ [point] in
      let pl := pause_length s + dist_diff in
      let pa := if qlt 0 elev_diff then pause_counter s + elev_diff
                else pause_counter s in
      if qle slope (end_threshold P)
      then Ok (mkdstate IN_DESCENT (start_idx s) pts (pause_start_idx s) pl pa (found s))
      else if (qlt (max_pause_length_m P) pl || qlt (max_pause_counter_m P) pa)%bool
      then
        let segment_df := py_slice_neg pts (i - pause_start_idx s) in
        ds <- validate_and_append_descent (found s) segment_df (start_idx s)
                (min_length_m P) (min_change_m P) coordinates ;;
        Ok (mkdstate SEARCHING (start_idx s) [] (pause_start_idx s) pl pa ds)
      else Ok (mkdstate EVALUATING_PAUSE (start_idx s) pts (pause_start_idx s) pl pa (found s))
  | IN_CLIMB => Ok s
  end.

Definition descent_run (P : detector_params) (df : list row) (coordinates : pyval)
    (n : nat) : result dstate :=
  foldM (descent_step P df coordinates) (seq 1 n) detector_init.

(** [_detect_descents] *)
Definition detect_descents (P : detector_params) (df : list row) (coordinates : pyval)
    : result (list segment) :=
  s <- descent_run P df coordinates (length df - 1) ;;
  match state s, segment_points s with
  | IN_DESCENT, _ :: _ | EVALUATING_PAUSE, _ :: _ =>
      validate_and_append_descent (found s) (segment_points s) (start_idx s)
        (min_length_m P) (min_change_m P) coordinates
  | _, _ => Ok (found s)
  end.

(** ** Gap Filler *)

(** [df.iloc[k]] *)
Definition iloc (df : list row) (k : nat) : result row :=
  match nth_error df k with Some r => Ok r | None => Raise IndexError end.

(** the index labels of [df[cond]] (the frame has the default index) *)
Definition index_where (p : row -> bool) (df : list row) : list nat :=
  filter (fun k => p (nth k df dummy_row)) (seq 0 (length df)).

(** [.index[0]] and [.index[-1]] *)
Definition index_first (ix : list nat) : result nat :=
  match ix with [] => Raise IndexError | k :: _ => Ok k end.
Definition index_last (ix : list nat) : result nat :=
  match rev ix with [] => Raise IndexError | k :: _ => Ok k end.

(** [max(0, x)] *)
Definition max0 (x : Q) : Q := if qlt 0 x then x else 0.

(** the type chosen by [_create_flat_segment]; a NaN average compares false *)
Definition flat_type (avg_grade : option Q) : string :=
  match avg_grade with
  | Some g =>
      if qlt 1 g then "uphill"%string
      else if qlt g (-1) then "downhill"%string
      else "flat"%string
  | None => "flat"%string
  end.

(** [_create_flat_segment] *)
Definition create_flat_segment (df : list row) (start_idx end_idx : nat)
    (avg_grade : option Q) : result segment :=
  r1 <- iloc df start_idx ;;
  r2 <- iloc df end_idx ;;
  let length := distance r2 - distance r1 in
  let elev_change := ele r2 - ele r1 in
  let grades := map plot_grade (slice df start_idx end_idx) in
  Ok (mkseg (flat_type avg_grade) "Uncategorized"
        (distance r1) (distance r2) length (ele r1) (ele r2)
        (max0 elev_change) (max0 (- elev_change)) elev_change avg_grade
        (series_max grades) (series_min grades) (series_var grades)
        None start_idx end_idx).

(** [df.loc[a:b, 'plot_grade'].mean()] *)
Definition gap_mean (df : list row) (a b : nat) : option Q :=
  mean (map plot_grade (slice df a b)).

(** One iteration of [for seg in segments] in [_fill_gaps], on the pair
    [(filled, last_end_dist)]. *)
Definition fill_step (df : list row) (acc : list segment * Q) (seg : segment)
    : result (list segment * Q) :=
  let '(filled, last_end_dist) := acc in
  if qlt (last_end_dist + 50) (start_distance seg) then
    gap_start_idx <- index_first (index_where (fun r => qle last_end_dist (distance r)) df) ;;
    gap_end_idx <- index_last (index_where (fun r => qle (distance r) (start_distance seg)) df) ;;
    gap_segment <- create_flat_segment df gap_start_idx gap_end_idx
                     (gap_mean df gap_start_idx gap_end_idx) ;;
    let filled := if qlt 50 (seg_distance gap_segment) then filled ++ [gap_segment]
                  else filled in
    Ok (filled ++ [seg], end_distance seg)
  else Ok (filled ++ [seg], end_distance seg).

(** [_fill_gaps] *)
Definition fill_gaps (df : list row) (segments : list segment) : result (list segment) :=
  match segments with
  | [] =>
      s <- create_flat_segment df 0 (length df - 1) (mean (map plot_grade df)) ;;
      Ok [s]
  | _ =>
      bind (foldM (fill_step df) segments ([], 0))
        (fun '(filled, last_end_dist) =>
           last <- iloc df (length df - 1) ;;
           if qlt last_end_dist (distance last - 50) then
             gap_start_idx <- index_first
                                (index_where (fun r => qle last_end_dist (distance r)) df) ;;
             let gap_end_idx := (length df - 1)%nat in
             gap_segment <- create_flat_segment df gap_start_idx gap_end_idx
                              (gap_mean df gap_start_idx gap_end_idx) ;;
             if qlt 50 (seg_distance gap_segment) then Ok (filled ++ [gap_segment])
             else Ok filled
           else Ok filled)
  end.

(** ** The entry point *)

(** [all_segments.sort(key=lambda x: x['start_distance'])]: Python's sort is
    stable, and every stable sort yields the same list; this is insertion
    sort, placing an element after the equal keys already placed. *)
Fixpoint insert_by_start (x : segment) (l : list segment) : list segment :=
  match l with
  | [] => [x]
  | y :: t => if qlt (start_distance x) (start_distance y) then x :: l
              else y :: insert_by_start x t
  end.

Definition sort_by_start (l : list segment) : list segment :=
  fold_left (fun acc x => insert_by_start x acc) l [].

(** [[float(c[k]) for c in coordinates]] *)
Definition coord_column (coordinates : pyval) (k : nat) : result (list Q) :=
  cs <- py_iter coordinates ;;
  mapM (fun c => x <- py_getitem c k ;; py_float x) cs.

(** the [try/except] of [cut_segment]; [has_coords] is not read afterwards *)
Definition coordinate_columns (coordinates : pyval) (n : nat) : list Q * list Q :=
  match coordinates with
  | PyNone => (repeat 0 n, repeat 0 n)
  | _ =>
      match (la <- coord_column coordinates 0 ;; lo <- coord_column coordinates 1 ;;
             Ok (la, lo)) with
      | Ok p => p
      | Raise _ => (repeat 0 n, repeat 0 n)
      end
  end.

(** [SegmentSlicer.cut_segment] *)
Definition cut_segment (altitude_profile distance_profile : list Q) (coordinates : pyval)
    (smooth_window : Z) : result (list segment) :=
  let '(lat_coords, lon_coords) :=
    coordinate_columns coordinates (length altitude_profile) in
  df <- make_frame altitude_profile distance_profile lat_coords lon_coords ;;
  if (length df <? 2)%nat then Ok []
  else
    let grades := calculate_grades df in
    plot <- apply_smoothing grades smooth_window ;;
    let rows := add_columns df grades plot in
    let climbs := detect_climbs climb_defaults rows in
    descents <- detect_descents descent_defaults rows coordinates ;;
    let all_segments := sort_by_start (climbs ++ descents) in
    fill_gaps rows all_segments.

(** ** Reading of the specification, for comparison with the code *)

(** The sharp-turn count as the specification words it: an interior point
    [i] counts when its angle exceeds 60 degrees and the distance between
    the points two before and two after it is under 50 m (a point without
    two neighbours on each side has no such span). *)
Definition sharp_turns_claimed (segment_df : list row) (coords : list pyval) : nat :=
  length (filter (fun i =>
    match calculate_angle (nth (i - 1) coords PyNone) (nth i coords PyNone)
                          (nth (i + 1) coords PyNone) with
    | Ok a =>
        (angle_gt_60 a && (2 <=? i)%nat && (i + 2 <? length segment_df)%nat
         && qlt (distance (nth (i + 2) segment_df dummy_row)
                 - distance (nth (i - 2) segment_df dummy_row)) 50)%bool
    | Raise _ => false
    end) (seq 1 (length coords - 2))).

(** The count as [_count_sharp_turns] measures the span: between the direct
    neighbours [i - 1] and [i + 1] of the evaluated point, in the segment's
    own index frame, over the interior points of the coordinate slice. *)
Definition sharp_turns_neighbour_span (segment_df : list row) (coords : list pyval) : nat :=
  length (filter (fun i =>
    match calculate_angle (nth (i - 1) coords PyNone) (nth i coords PyNone)
                          (nth (i + 1) coords PyNone) with
    | Ok a =>
        (angle_gt_60 a
         && qlt (distance (nth (i + 1) segment_df dummy_row)
                 - distance (nth (i - 1) segment_df dummy_row)) 50)%bool
    | Raise _ => false
    end) (seq 1 (length coords - 2))).

(** Coordinates as the input contract describes them: absent, or a list of
    [(lat, lon)] float pairs. *)
Definition coord_pair (c : Q * Q) : pyval := PyList [PyFloat (fst c); PyFloat (snd c)].

Definition well_formed_coords (coordinates : pyval) : Prop :=
  coordinates = PyNone \/ exists cs, coordinates = PyList (map coord_pair cs).

(** ** Concrete inputs *)

Definition qs (l : list Z) : list Q := map inject_Z l.

(** 100 m of climbing over 1000 m, sampled every 100 m *)
Definition rise_alt : list Q := qs [0; 10; 20; 30; 40; 50; 60; 70; 80; 90; 100]%Z.
Definition rise_dist : list Q := qs [0; 100; 200; 300; 400; 500; 600; 700; 800; 900; 1000]%Z.

(** the mirrored descent *)
Definition drop_alt : list Q := rev rise_alt.

(** a flat lead-in of 45 m (ten samples) before a steady climb *)
Definition leadin_alt : list Q :=
  qs [0; 0; 0; 0; 0; 0; 0; 0; 0; 0; 10; 20; 30; 40; 50; 60; 70; 80; 90; 100; 110]%Z.
Definition leadin_dist : list Q :=
  qs [0; 5; 10; 15; 20; 25; 30; 35; 40; 45;
      145; 245; 345; 445; 545; 645; 745; 845; 945; 1045; 1145]%Z.

(** a flat profile of ten points *)
Definition flat_alt : list Q := repeat 0 10.
Definition flat_dist : list Q := qs [0; 10; 20; 30; 40; 50; 60; 70; 80; 90]%Z.

(** a row at a given distance *)
Definition row_at (d : Q) : row := mkrow 0 d 0 0 0 0.

(** five samples with a right angle at the middle one, whose neighbours are
    40 m apart while the points two away are 240 m apart *)
Definition turn_rows : list row := map row_at (qs [0; 100; 120; 140; 240]%Z).
Definition turn_coords : list (Q * Q) := [(0, 0); (0, 0); (1, 0); (1, 1); (1, 1)].

(** a right angle with neighbours 30 m apart, and the same 200 m apart *)
Definition turn30_rows : list row := map row_at (qs [0; 15; 30]%Z).
Definition turn200_rows : list row := map row_at (qs [0; 100; 200]%Z).
Definition right_angle : list (Q * Q) := [(0, 0); (1, 0); (1, 1)].

(** a 400 m climb of 40 m at 10 %, then a flat pause that outgrows
    [max_pause_length_m]; and its mirror *)
Definition pause_rows : list row :=
  map (fun '(e, d, g) => mkrow e d 0 0 g g)
    [(0, 0, 10); (20, 200, 10); (40, 400, 10); (40, 600, 0); (40, 800, 0); (40, 1000, 0)].
Definition pause_rows_down : list row :=
  map (fun '(e, d, g) => mkrow e d 0 0 g g)
    [(40, 0, -10); (20, 200, -10); (0, 400, -10); (0, 600, 0); (0, 800, 0); (0, 1000, 0)].

(** a Minor Descent over the rows 9 .. 59 (after a lead of ten flat samples
    10 m apart), whose only turn is a right angle at row 54; the GPS
    position stays put before it and after it *)
Definition late_turn_alt : list Q :=
  repeat 100 10 ++ map (fun k => 100 - 2 * inject_Z (Z.of_nat k)) (seq 1 50).
Definition late_turn_dist : list Q := map (fun k => 10 * inject_Z (Z.of_nat k)) (seq 0 60).
Definition late_turn_coords : list (Q * Q) := repeat (0, 0) 54 ++ [(0, 10)] ++ repeat (10, 10) 5.

(** a climb of 100 m over 1 km between two flat stretches of 400 m and 900 m *)
Definition step_alt : list Q :=
  qs [0; 0; 0; 0; 0; 10; 20; 30; 40; 50; 60; 70; 80; 90; 100;
      100; 100; 100; 100; 100; 100; 100; 100; 100]%Z.
Definition step_dist : list Q := map (fun k => inject_Z (Z.of_nat k) * 100) (seq 0 24).

(** a decision of "non-decreasing" for a concrete profile *)
Fixpoint nondecreasing_b (l : list Q) : bool :=
  match l with
  | x :: ((y :: _) as t) => (qle x y && nondecreasing_b t)%bool
  | _ => true
  end.

(** the frame [cut_segment] hands to the detectors, for a profile without
    coordinates *)
Definition profile_rows (alt dist : list Q) (smooth_window : Z) : list row :=
  match make_frame alt dist (repeat 0 (length alt)) (repeat 0 (length alt)) with
  | Ok df =>
      let grades := calculate_grades df in
      match apply_smoothing grades smooth_window with
      | Ok plot => add_columns df grades plot
      | Raise _ => []
      end
  | Raise _ => []
  end.

(** ** Invariants of the scanning loops *)

(** After the iterations [1 .. n] of [_detect_climbs]: while searching no
    point is held; inside a climb the points held are the rows
    [start_idx .. n]; during a pause likewise, the pause having begun at
    [pause_start_idx + 1], and every row since then being below
    [end_threshold]. *)
Definition climb_inv (P : detector_params) (df : list row) (n : nat) (s : dstate) : Prop :=
  match state s with
  | SEARCHING => segment_points s = []
  | IN_CLIMB => (start_idx s < n)%nat /\ segment_points s = slice df (start_idx s) n
  | EVALUATING_PAUSE =>
      (start_idx s < pause_start_idx s)%nat /\ (pause_start_idx s < n)%nat /\
      segment_points s = slice df (start_idx s) n /\
      (forall k, (pause_start_idx s < k <= n)%nat ->
                 qle (end_threshold P) (plot_grade (nth k df dummy_row)) = false)
  | IN_DESCENT => False
  end.

(** The same for [_detect_descents]. *)
Definition descent_inv (P : detector_params) (df : list row) (n : nat) (s : dstate) : Prop :=
  match state s with
  | SEARCHING => segment_points s = []
  | IN_DESCENT => (start_idx s < n)%nat /\ segment_points s = slice df (start_idx s) n
  | EVALUATING_PAUSE =>
      (start_idx s < pause_start_idx s)%nat /\ (pause_start_idx s < n)%nat /\
      segment_points s = slice df (start_idx s) n /\
      (forall k, (pause_start_idx s < k <= n)%nat ->
                 qle (plot_grade (nth k df dummy_row)) (end_threshold P) = false)
  | IN_CLIMB => False
  end.

(** A candidate record spans the rows [a .. b] of the frame. *)
Definition cand_ok (df : list row) (r : segment) : Prop :=
  exists a b, (a <= b)%nat /\ (b < length df)%nat /\
    start_distance r = distance (nth a df dummy_row) /\
    end_distance r = distance (nth b df dummy_row).

(** The elevation fields of the climb and of the descent records. *)
Definition climb_record_ok (r : segment) : Prop :=
  elevation_loss r = 0 /\ elevation_change r = elevation_gain r.
Definition descent_record_ok (r : segment) : Prop :=
  elevation_gain r = 0 /\ elevation_change r = - elevation_loss r.

(** Distances do not decrease along the frame. *)
Definition dist_sorted (df : list row) : Prop :=
  forall i j, (i <= j < length df)%nat ->
    distance (nth i df dummy_row) <= distance (nth j df dummy_row).

Definition start_le (a b : segment) : Prop := start_distance a <= start_distance b.

(** The typing rule of a filler: above 1 % uphill, below -1 % downhill,
    otherwise (a NaN average included) flat. *)
Definition grade_typed (t : string) (g : option Q) : Prop :=
  match g with
  | Some g => (1 < g /\ t = "uphill"%string) \/ (g < -1 /\ t = "downhill"%string) \/
              (-1 <= g <= 1 /\ t = "flat"%string)
  | None => t = "flat"%string
  end.

(** A filler record of the frame: uncategorized, without a [sharp_turns]
    field, its grade the mean smoothed grade of the rows it spans, and its
    type set by that grade. *)
Definition filler_ok (df : list row) (s : segment) : Prop :=
  category s = "Uncategorized"%string /\ sharp_turns s = None /\
  seg_grade s = gap_mean df (seg_start_idx s) (seg_end_idx s) /\
  grade_typed (seg_type s) (seg_grade s).

(** The order of the categories: a higher rank is a harder climb (descent). *)
Definition climb_rank (c : string) : nat :=
  if String.eqb c "HC" then 5
  else if String.eqb c "Cat 1" then 4
  else if String.eqb c "Cat 2" then 3
  else if String.eqb c "Cat 3" then 2
  else if String.eqb c "Cat 4" then 1
  else 0.

Definition descent_rank (c : string) : nat :=
  if String.eqb c "Major Descent" then 4
  else if String.eqb c "Significant Descent" then 3
  else if String.eqb c "Moderate Descent" then 2
  else if String.eqb c "Minor Descent" then 1
  else 0.

(** What a record emitted by [_detect_climbs] guarantees: the thresholds
    of [P] are met, the type follows the category, the category is the
    classification of its length and grade, and its indices are rows of the
    frame whose distances are its start and end. *)
Definition climb_record_valid (P : detector_params) (df : list row) (r : segment) : Prop :=
  min_length_m P <= seg_distance r /\ min_change_m P <= elevation_gain r /\
  ((seg_type r = "climb"%string /\ category r <> "Uncategorized"%string) \/
   (seg_type r = "uphill"%string /\ category r = "Uncategorized"%string)) /\
  (exists g, seg_grade r = Some g /\ category r = classify_climb_strava (seg_distance r) g) /\
  (seg_start_idx r < seg_end_idx r < length df)%nat /\
  start_distance r = distance (nth (seg_start_idx r) df dummy_row) /\
  end_distance r = distance (nth (seg_end_idx r) df dummy_row) /\
  seg_distance r = end_distance r - start_distance r.

(** The same for [_detect_descents], whose records also carry a turn count,
    0 for an uncategorized descent. *)
Definition descent_record_valid (P : detector_params) (df : list row) (r : segment) : Prop :=
  min_length_m P <= seg_distance r /\ min_change_m P <= elevation_loss r /\
  ((seg_type r = "descent"%string /\ category r <> "Uncategorized"%string) \/
   (seg_type r = "downhill"%string /\ category r = "Uncategorized"%string)) /\
  (exists g, seg_grade r = Some g /\ category r = classify_descent (seg_distance r) (Qabs g)) /\
  (seg_type r = "downhill"%string -> sharp_turns r = Some 0%nat) /\
  sharp_turns r <> None /\
  (seg_start_idx r < seg_end_idx r < length df)%nat /\
  start_distance r = distance (nth (seg_start_idx r) df dummy_row) /\
  end_distance r = distance (nth (seg_end_idx r) df dummy_row) /\
  seg_distance r = end_distance r - start_distance r.

(** Two records of one detector in row order, sharing no row. *)
Definition seg_before (r1 r2 : segment) : Prop :=
  (seg_end_idx r1 < seg_start_idx r2)%nat.

(** The records found by the iterations [1 .. n] are in row order, end
    before row [n], and before the start of the open candidate. *)
Definition found_ordered (n : nat) (s : dstate) : Prop :=
  StronglySorted seg_before (found s) /\
  (forall r, In r (found s) -> (seg_end_idx r < n)%nat) /\
  (state s <> SEARCHING -> forall r, In r (found s) -> (seg_end_idx r < start_idx s)%nat).

(** * Properties *)

(** ** Evaluations at concrete inputs *)

(** C3 (failing input): the profile rising 100 m over 1000 m gives one
    categorized climb, "Cat 4", but its gain is 90 m (the first positive
    altitude step is not counted), so its average slope is 9 and its score
    [length * avg_slope] is 9000, not 10000. *)
Theorem rise_profile_climb_score :
  exists s g,
    cut_segment rise_alt rise_dist PyNone 10 = Ok [s] /\
    seg_type s = "climb"%string /\ category s = "Cat 4"%string /\
    elevation_gain s == 90 /\ seg_grade s = Some g /\
    seg_distance s == 1000 /\ seg_distance s * g == 9000.
Proof.
  do 2 eexists. split; [vm_compute; reflexivity|].
  vm_compute. repeat split; reflexivity.
Qed.

(** C6 (failing input): with the default window 10 and a profile of 10
    points the effective window is 11, longer than the sequence. *)
Theorem smoothing_window_exceeds_length :
  smoothing_window 10 10 = 11%Z /\ (Z.of_nat 10 < smoothing_window 10 10)%Z.
Proof. vm_compute. split; [reflexivity | reflexivity]. Qed.

(** C9 (failing input): coordinates given as a list of bare floats are
    malformed: reading [c[0]] fails and is caught, the placeholders are
    zero-filled, but the categorized descent still calls the turn counter on
    the raw coordinates and [cut_segment] raises [TypeError]. *)
Theorem malformed_coords_raise :
  coordinate_columns (PyList (repeat (PyFloat 0) 11)) 11 = (repeat 0 11, repeat 0 11) /\
  cut_segment drop_alt rise_dist (PyList (repeat (PyFloat 0) 11)) 10 = Raise TypeError.
Proof. split; vm_compute; reflexivity. Qed.

(** C1 (counterexample): on a profile with a 35 m flat lead-in before a
    climb, the only segment returned starts at index 7: the lead-in gap is
    shorter than 50 m and is dropped, so index 0 is covered by no segment. *)
Theorem leadin_index0_uncovered :
  exists segs,
    cut_segment leadin_alt leadin_dist PyNone 10 = Ok segs /\ segs <> [] /\
    Forall (fun s => (0 < seg_start_idx s)%nat) segs.
Proof.
  eexists. split; [vm_compute; reflexivity|].
  split; [discriminate|]. vm_compute. repeat constructor.
Qed.

(** C8 (counterexample): the single filler returned for a flat route has no
    ['sharp_turns'] key at all. *)
Theorem flat_route_filler_has_no_sharp_turns :
  exists s, cut_segment flat_alt flat_dist PyNone 10 = Ok [s] /\
            seg_type s = "flat"%string /\ sharp_turns s = None.
Proof.
  eexists. split; [vm_compute; reflexivity|]. split; reflexivity.
Qed.

(** C5 (counterexample): the first difference at index 0 is NaN, yet the
    grade written at index 0 is 0. *)
Theorem grade_index0_is_zero :
  let df := [mkpoint 0 0 0 0; mkpoint 10 100 0 0] in
  hd (Some 0) (diff (map p_distance df)) = None /\
  nth_error (calculate_grades df) 0 = Some 0.
Proof. split; vm_compute; reflexivity. Qed.

(** ** List lemmas *)

Lemma nth_error_zip_with {A B C} (f : A -> B -> C) l1 l2 i :
  nth_error (zip_with f l1 l2) i =
  match nth_error l1 i, nth_error l2 i with
  | Some a, Some b => Some (f a b)
  | _, _ => None
  end.
Proof.
  revert l2 i; induction l1 as [|x t IH]; intros [|y t2] [|i]; simpl; auto.
  - destruct (nth_error t i); auto.
Qed.

Lemma length_zip_with {A B C} (f : A -> B -> C) l1 l2 :
  length (zip_with f l1 l2) = Nat.min (length l1) (length l2).
Proof.
  revert l2; induction l1 as [|x t IH]; intros [|y t2]; simpl; auto.
Qed.

Lemma length_diff xs : length (diff xs) = length xs.
Proof.
  destruct xs as [|x t]; [reflexivity|].
  unfold diff. cbn [length]. rewrite length_zip_with. cbn [length]. lia.
Qed.

Lemma nth_error_diff_succ xs i :
  nth_error (diff xs) (S i) =
  match nth_error xs i, nth_error xs (S i) with
  | Some a, Some b => Some (Some (b - a))
  | _, _ => None
  end.
Proof.
  destruct xs as [|x t]; [destruct i; reflexivity|].
  unfold diff. cbn [nth_error]. rewrite nth_error_zip_with. reflexivity.
Qed.

(** ** Grade Calculator *)

(** C5 (amended): the grade column has one entry per sample; at index 0 it
    is 0 (the NaN first difference fails the [> 0] test of [np.where]); at
    every index [i >= 1] it is [(ele[i] - ele[i-1]) / (d[i] - d[i-1]) * 100]
    when the distance step is positive and 0 otherwise. *)
Theorem calculate_grades_spec :
  forall df : list point,
    length (calculate_grades df) = length df /\
    (df <> [] -> nth_error (calculate_grades df) 0 = Some 0) /\
    (forall i p q, nth_error df i = Some p -> nth_error df (S i) = Some q ->
       nth_error (calculate_grades df) (S i) =
       Some (if qlt 0 (p_distance q - p_distance p)
             then ((p_ele q - p_ele p) / (p_distance q - p_distance p)) * 100
             else 0)).
Proof.
  intros df. unfold calculate_grades. split; [|split].
  - rewrite length_zip_with, !length_diff, !length_map. lia.
  - destruct df as [|x t]; [congruence|]. intros _. reflexivity.
  - intros i p q Hp Hq. rewrite nth_error_zip_with, !nth_error_diff_succ.
    rewrite !nth_error_map, Hp, Hq. reflexivity.
Qed.

Lemma calculate_grades_spec_witness :
  nth_error (calculate_grades [mkpoint 0 0 0 0; mkpoint 10 100 0 0]) 0 = Some 0 /\
  nth_error (calculate_grades [mkpoint 0 0 0 0; mkpoint 10 100 0 0]) 1 =
    Some (if qlt 0 (100 - 0) then ((10 - 0) / (100 - 0)) * 100 else 0).
Proof.
  split.
  - apply (proj1 (proj2 (calculate_grades_spec [mkpoint 0 0 0 0; mkpoint 10 100 0 0]))).
    discriminate.
  - apply (proj2 (proj2 (calculate_grades_spec [mkpoint 0 0 0 0; mkpoint 10 100 0 0]))
             0%nat (mkpoint 0 0 0 0) (mkpoint 10 100 0 0)); reflexivity.
Defined.

(** ** Comparisons *)

Lemma qle_spec x y : qle x y = true <-> x <= y.
Proof. unfold qle. apply Qle_bool_iff. Qed.

Lemma qlt_spec x y : qlt x y = true <-> x < y.
Proof.
  unfold qlt. rewrite negb_true_iff. split; intro H.
  - apply Qnot_le_lt. intro H'. apply Qle_bool_iff in H'. congruence.
  - destruct (Qle_bool y x) eqn:E; [|reflexivity].
    apply Qle_bool_iff in E. exfalso. apply (Qlt_not_le _ _ H E).
Qed.

Lemma qlt_false x y : qlt x y = false <-> y <= x.
Proof.
  unfold qlt. rewrite negb_false_iff. apply Qle_bool_iff.
Qed.

Lemma qle_false x y : qle x y = false <-> y < x.
Proof.
  split; intro H.
  - apply Qnot_le_lt. intro H'. apply qle_spec in H'. congruence.
  - destruct (qle x y) eqn:E; [|reflexivity].
    apply qle_spec in E. exfalso. apply (Qlt_not_le _ _ H E).
Qed.

(** ** The turn counter on well-formed coordinates *)

Lemma foldM_ok {A B} (f : A -> B -> result A) (l : list B) (a : A) :
  (forall a x, In x l -> exists b, f a x = Ok b) -> exists b, foldM f l a = Ok b.
Proof.
  revert a; induction l as [|x t IH]; intros a H; simpl.
  - eauto.
  - destruct (H a x (or_introl eq_refl)) as [b Hb]. rewrite Hb. simpl.
    apply IH. intros a' y Hy. apply H. right. exact Hy.
Qed.

Lemma calculate_angle_pairs a b c :
  exists ang, calculate_angle (coord_pair a) (coord_pair b) (coord_pair c) = Ok ang.
Proof.
  unfold calculate_angle; simpl.
  destruct (_ || _)%bool; eauto.
Qed.

Lemma nth_map_pair cs k :
  (k < length cs)%nat -> nth k (map coord_pair cs) PyNone = coord_pair (nth k cs (0, 0)).
Proof.
  intro Hk. rewrite (nth_indep _ PyNone (coord_pair (0, 0))) by (rewrite length_map; exact Hk).
  apply map_nth.
Qed.

Lemma count_sharp_turns_ok segment_df coordinates :
  well_formed_coords coordinates -> exists n, count_sharp_turns segment_df coordinates = Ok n.
Proof.
  intros [->|[cs ->]]; [exists 0%nat; reflexivity|].
  unfold count_sharp_turns.
  destruct (negb _ || _)%bool; [eauto|].
  simpl py_len. cbn [bind].
  destruct (_ || _)%bool; [eauto|].
  simpl py_slice. cbn [bind].
  cbn [skipn]. rewrite firstn_map.
  set (m := firstn _ cs).
  apply foldM_ok. intros acc i Hi. apply in_seq in Hi. rewrite length_map in Hi.
  rewrite !nth_map_pair by lia.
  destruct (calculate_angle_pairs (nth (i - 1) m (0, 0)) (nth i m (0, 0))
                                   (nth (i + 1) m (0, 0))) as [ang Hang].
  rewrite Hang. cbn [bind].
  destruct (_ <? _)%nat; [destruct (_ && _)%bool|]; eauto.
Qed.

(** ** Candidate validation *)

Lemma qlt_eq_false x y : x == y -> qlt x y = false.
Proof. intro H. apply qlt_false. rewrite H. apply Qle_refl. Qed.

Lemma qlt_below x y : x == y - 1 -> qlt x y = true.
Proof. intro H. apply qlt_spec. rewrite H. lra. Qed.

Lemma lt2_false (n : nat) : (2 <= n)%nat -> (n <? 2)%nat = false.
Proof. intro H. apply Nat.ltb_ge. exact H. Qed.

(** C7: the minimum thresholds of the validation are inclusive.  A candidate
    of at least two points whose length is exactly [min_length_m] and whose
    accumulated gain (loss for descents) is exactly [min_gain_m]
    ([min_loss_m]) is appended; one with fewer than two points, or whose
    length or gain (loss) is one unit below its bound, is not.  (A retained
    descent is appended without an exception when the coordinates are absent
    or well-formed.) *)
Theorem validation_inclusive_thresholds :
  forall (l : list segment) (pts : list row) (st : nat) (ml mg : Q) (coordinates : pyval),
    ((2 <= length pts)%nat -> seg_length pts == ml -> climb_gain pts == mg ->
       exists r, validate_and_append_climb l pts st ml mg = l ++ [r]) /\
    ((length pts < 2)%nat \/ seg_length pts == ml - 1 \/ climb_gain pts == mg - 1 ->
       validate_and_append_climb l pts st ml mg = l) /\
    (well_formed_coords coordinates ->
     (2 <= length pts)%nat -> seg_length pts == ml -> descent_loss pts == mg ->
       exists r, validate_and_append_descent l pts st ml mg coordinates = Ok (l ++ [r])) /\
    ((length pts < 2)%nat \/ seg_length pts == ml - 1 \/ descent_loss pts == mg - 1 ->
       validate_and_append_descent l pts st ml mg coordinates = Ok l).
Proof.
  intros l pts st ml mg coordinates. split; [|split; [|split]].
  - intros H2 HL HG. unfold validate_and_append_climb.
    rewrite lt2_false by exact H2. rewrite (qlt_eq_false _ _ HL), (qlt_eq_false _ _ HG).
    simpl. eauto.
  - intros H. unfold validate_and_append_climb.
    destruct H as [H|[H|H]].
    + apply Nat.ltb_lt in H. rewrite H. reflexivity.
    + destruct (length pts <? 2)%nat; [reflexivity|].
      rewrite (qlt_below _ _ H). reflexivity.
    + destruct (length pts <? 2)%nat; [reflexivity|].
      rewrite (qlt_below _ _ H), orb_true_r. reflexivity.
  - intros Hw H2 HL HG. unfold validate_and_append_descent.
    rewrite lt2_false by exact H2. rewrite (qlt_eq_false _ _ HL), (qlt_eq_false _ _ HG).
    cbn [orb].
    destruct (String.eqb _ "descent" && py_truthy coordinates)%bool.
    + destruct (count_sharp_turns_ok pts coordinates Hw) as [n Hn].
      rewrite Hn. cbn [bind]. eauto.
    + cbn [bind]. eauto.
  - intros H. unfold validate_and_append_descent.
    destruct H as [H|[H|H]].
    + apply Nat.ltb_lt in H. rewrite H. reflexivity.
    + destruct (length pts <? 2)%nat; [reflexivity|].
      rewrite (qlt_below _ _ H). reflexivity.
    + destruct (length pts <? 2)%nat; [reflexivity|].
      rewrite (qlt_below _ _ H), orb_true_r. reflexivity.
Qed.

Lemma validation_inclusive_thresholds_witness :
  let pts := [mkrow 0 0 0 0 0 0; mkrow 10 150 0 0 0 0; mkrow 30 300 0 0 0 0] in
  let dpts := [mkrow 30 0 0 0 0 0; mkrow 20 150 0 0 0 0; mkrow 0 300 0 0 0 0] in
  (exists r, validate_and_append_climb [] pts 0 300 20 = [] ++ [r]) /\
  validate_and_append_climb [] pts 0 301 20 = [] /\
  (exists r, validate_and_append_descent [] dpts 0 300 20 PyNone = Ok ([] ++ [r])) /\
  validate_and_append_descent [] dpts 0 300 21 PyNone = Ok [].
Proof.
  intros pts dpts.
  pose proof (validation_inclusive_thresholds [] pts 0 300 20 PyNone) as A.
  pose proof (validation_inclusive_thresholds [] pts 0 301 20 PyNone) as B.
  pose proof (validation_inclusive_thresholds [] dpts 0 300 20 PyNone) as C.
  pose proof (validation_inclusive_thresholds [] dpts 0 300 21 PyNone) as D.
  split; [|split; [|split]].
  - apply (proj1 A); [simpl; lia | vm_compute; reflexivity | vm_compute; reflexivity].
  - apply (proj1 (proj2 B)). right. left. vm_compute. reflexivity.
  - apply (proj1 (proj2 (proj2 C))); [left; reflexivity | simpl; lia
                                     | vm_compute; reflexivity | vm_compute; reflexivity].
  - apply (proj2 (proj2 (proj2 D))). right. right. vm_compute. reflexivity.
Defined.

(** ** Slices of the frame *)

Lemma skipn_nth_cons {A} (l : list A) (a : nat) (d : A) :
  (a < length l)%nat -> skipn a l = nth a l d :: skipn (S a) l.
Proof.
  revert a; induction l as [|x t IH]; intros [|a] H; simpl in *; try lia; auto.
  apply IH. lia.
Qed.

Lemma firstn_skipn_as_map {A} (l : list A) (d : A) (m a : nat) :
  (a + m <= length l)%nat ->
  firstn m (skipn a l) = map (fun k => nth k l d) (seq a m).
Proof.
  revert a; induction m as [|m IH]; intros a H; [reflexivity|].
  rewrite (skipn_nth_cons l a d) by lia. cbn [firstn seq map]. f_equal. apply IH. lia.
Qed.

Lemma slice_as_map {A} (l : list A) (d : A) (a b : nat) :
  (a <= b)%nat -> (b < length l)%nat ->
  slice l a b = map (fun k => nth k l d) (seq a (S b - a)).
Proof. intros H1 H. unfold slice. apply firstn_skipn_as_map. lia. Qed.

Lemma slice_extend df a n :
  (a <= n)%nat -> (S n < length df)%nat ->
  slice df a (S n) = slice df a n ++ [nth (S n) df dummy_row].
Proof.
  intros H1 H2. rewrite !(slice_as_map df dummy_row) by lia.
  replace (S (S n) - a)%nat with (S (S n - a)) by lia. rewrite seq_S, map_app.
  replace (a + (S n - a))%nat with (S n) by lia. reflexivity.
Qed.

Lemma slice_pair df n :
  (S n < length df)%nat ->
  slice df n (S n) = [nth n df dummy_row; nth (S n) df dummy_row].
Proof.
  intro H. rewrite (slice_as_map df dummy_row) by lia.
  replace (S (S n) - n)%nat with 2%nat by lia. reflexivity.
Qed.

Lemma length_slice {A} (l : list A) a b :
  (b < length l)%nat -> length (slice l a b) = (S b - a)%nat.
Proof.
  intro H. unfold slice. rewrite length_firstn, length_skipn. lia.
Qed.

Lemma firstn_seq a m k : firstn k (seq a m) = seq a (Nat.min k m).
Proof.
  revert a k; induction m as [|m IH]; intros a [|k]; simpl; try reflexivity.
  f_equal. apply IH.
Qed.

Lemma firstn_slice (df : list row) a p i :
  (a <= p <= i)%nat -> (i < length df)%nat ->
  firstn (S p - a) (slice df a i) = slice df a p.
Proof.
  intros H1 H2. rewrite !(slice_as_map df dummy_row) by lia.
  rewrite firstn_map, firstn_seq. f_equal. f_equal. lia.
Qed.

(** The cut at the end of a failed pause keeps the rows up to the end of
    the stable part. *)
Lemma py_slice_neg_slice (df : list row) a p i :
  (a <= p < i)%nat -> (i < length df)%nat ->
  py_slice_neg (slice df a i) (i - p) = slice df a p.
Proof.
  intros H1 H2. unfold py_slice_neg.
  destruct (i - p)%nat as [|k] eqn:E; [lia|]. rewrite <- E.
  rewrite length_slice by exact H2.
  replace (S i - a - (i - p))%nat with (S p - a)%nat by lia.
  apply firstn_slice; lia.
Qed.

Lemma last_map_seq (f : nat -> row) a m d :
  last (map f (seq a (S m))) d = f (a + m)%nat.
Proof.
  revert a; induction m as [|m IH]; intro a.
  - simpl. f_equal. lia.
  - rewrite seq_S, map_app. change (map f [(a + S m)%nat]) with [f (a + S m)%nat].
    rewrite last_last. reflexivity.
Qed.

Lemma first_row_slice df a b :
  (a <= b < length df)%nat -> first_row (slice df a b) = nth a df dummy_row.
Proof.
  intro H. unfold first_row. rewrite (slice_as_map df dummy_row) by lia.
  replace (S b - a)%nat with (S (b - a)) by lia. reflexivity.
Qed.

Lemma last_row_slice df a b :
  (a <= b < length df)%nat -> last_row (slice df a b) = nth b df dummy_row.
Proof.
  intro H. unfold last_row. rewrite (slice_as_map df dummy_row) by lia.
  replace (S b - a)%nat with (S (b - a)) by lia. rewrite last_map_seq.
  f_equal. lia.
Qed.

(** ** The climb detector *)

Lemma climb_run_S P df n :
  climb_run P df (S n) = climb_step P df (climb_run P df n) (S n).
Proof. unfold climb_run. rewrite seq_S, fold_left_app. reflexivity. Qed.

Lemma climb_step_inv P df n s :
  climb_inv P df n s -> (S n < length df)%nat ->
  climb_inv P df (S n) (climb_step P df s (S n)).
Proof.
  intros Hinv Hlen. unfold climb_inv in Hinv. unfold climb_step.
  replace (S n - 1)%nat with n by lia. cbv zeta.
  destruct (state s) eqn:Est.
  - destruct (qle _ _) eqn:E; unfold climb_inv; simpl.
    + split; [lia|]. symmetry. apply slice_pair. exact Hlen.
    + rewrite Est. exact Hinv.
  - destruct Hinv as [H1 H2].
    destruct (qle _ _) eqn:E; unfold climb_inv; simpl.
    + split; [lia|]. rewrite H2. symmetry. apply slice_extend; lia.
    + split; [lia|]. split; [lia|]. split.
      * rewrite H2. symmetry. apply slice_extend; lia.
      * intros k Hk. replace k with (S n) by lia. exact E.
  - contradiction.
  - destruct Hinv as [H1 [H2 [H3 H4]]].
    destruct (qle _ _) eqn:E.
    + unfold climb_inv; simpl. split; [lia|]. rewrite H3. symmetry. apply slice_extend; lia.
    + destruct (_ || _)%bool; unfold climb_inv; simpl; [reflexivity|].
      split; [lia|]. split; [lia|]. split.
      * rewrite H3. symmetry. apply slice_extend; lia.
      * intros k Hk. destruct (Nat.eq_dec k (S n)) as [->|Hne]; [exact E|].
        apply H4. lia.
Qed.

Lemma climb_run_inv P df n :
  (n < length df)%nat -> climb_inv P df n (climb_run P df n).
Proof.
  induction n as [|n IH]; intro H.
  - reflexivity.
  - rewrite climb_run_S. apply climb_step_inv; [apply IH; lia | exact H].
Qed.

Lemma validate_climb_cases l pts st ml mg :
  validate_and_append_climb l pts st ml mg = l \/
  exists r, validate_and_append_climb l pts st ml mg = l ++ [r] /\
    climb_record_ok r /\
    start_distance r = distance (first_row pts) /\
    end_distance r = distance (last_row pts).
Proof.
  unfold validate_and_append_climb. cbv zeta.
  destruct (_ <? _)%nat; [left; reflexivity|].
  destruct (_ || _)%bool; [left; reflexivity|].
  right. eexists. split; [reflexivity|]. repeat split.
Qed.

Lemma validate_climb_slice l df a b st ml mg :
  (a <= b)%nat -> (b < length df)%nat -> Forall (cand_ok df) l ->
  Forall (cand_ok df) (validate_and_append_climb l (slice df a b) st ml mg).
Proof.
  intros H1 H2 Hl.
  destruct (validate_climb_cases l (slice df a b) st ml mg) as [->|[r [-> [_ [Hs He]]]]];
    [exact Hl|].
  apply Forall_app. split; [exact Hl|]. constructor; [|constructor].
  exists a, b. split; [exact H1|]. split; [exact H2|].
  rewrite Hs, He, first_row_slice, last_row_slice by lia. split; reflexivity.
Qed.

Lemma climb_step_cands P df n s :
  climb_inv P df n s -> (S n < length df)%nat -> Forall (cand_ok df) (found s) ->
  Forall (cand_ok df) (found (climb_step P df s (S n))).
Proof.
  intros Hinv Hlen Hf. unfold climb_inv in Hinv. unfold climb_step.
  replace (S n - 1)%nat with n by lia. cbv zeta.
  destruct (state s) eqn:Est; try exact Hf.
  - destruct (qle _ _); exact Hf.
  - destruct (qle _ _); exact Hf.
  - destruct Hinv as [H1 [H2 [H3 H4]]].
    destruct (qle _ _); [exact Hf|].
    destruct (_ || _)%bool; [|exact Hf]. cbn [found].
    rewrite H3, <- slice_extend by lia. rewrite py_slice_neg_slice by lia.
    apply validate_climb_slice; [lia | lia | exact Hf].
Qed.

Lemma climb_run_cands P df n :
  (n < length df)%nat -> Forall (cand_ok df) (found (climb_run P df n)).
Proof.
  induction n as [|n IH]; intro H.
  - constructor.
  - rewrite climb_run_S. apply climb_step_cands; [apply climb_run_inv; lia | exact H |].
    apply IH. lia.
Qed.

Lemma detect_climbs_cands P df : Forall (cand_ok df) (detect_climbs P df).
Proof.
  unfold detect_climbs.
  destruct (length df) as [|m] eqn:Hlen.
  - simpl. constructor.
  - replace (S m - 1)%nat with m by lia.
    pose proof (climb_run_inv P df m ltac:(lia)) as Hinv.
    pose proof (climb_run_cands P df m ltac:(lia)) as Hf.
    unfold climb_inv in Hinv.
    destruct (state (climb_run P df m)); destruct (segment_points (climb_run P df m)) eqn:Ep;
      try exact Hf.
    + destruct Hinv as [H1 H2]. rewrite H2.
      apply validate_climb_slice; [lia | lia | exact Hf].
    + destruct Hinv as [H1 [H2 [H3 H4]]]. rewrite H3.
      apply validate_climb_slice; [lia | lia | exact Hf].
Qed.

Lemma climb_step_records P df s i :
  Forall climb_record_ok (found s) -> Forall climb_record_ok (found (climb_step P df s i)).
Proof.
  intro Hf. unfold climb_step. cbv zeta.
  destruct (state s); try exact Hf.
  - destruct (qle _ _); exact Hf.
  - destruct (qle _ _); exact Hf.
  - destruct (qle _ _); [exact Hf|].
    destruct (_ || _)%bool; [|exact Hf]. cbn [found].
    match goal with |- context [validate_and_append_climb ?l ?p ?a ?b ?c] =>
      destruct (validate_climb_cases l p a b c) as [->|[r [-> [Hr _]]]] end;
      [exact Hf|].
    apply Forall_app. split; [exact Hf | constructor; [exact Hr | constructor]].
Qed.

(** ** The descent detector *)

Lemma foldM_app {A B} (f : A -> B -> result A) l1 l2 a :
  foldM f (l1 ++ l2) a = (b <- foldM f l1 a ;; foldM f l2 b).
Proof.
  revert a; induction l1 as [|x t IH]; intro a; simpl; [reflexivity|].
  destruct (f a x); simpl; [apply IH | reflexivity].
Qed.

Lemma bind_ok_r {A} (m : result A) : (x <- m ;; Ok x) = m.
Proof. destruct m; reflexivity. Qed.

Lemma descent_run_S P df c n :
  descent_run P df c (S n) = (s <- descent_run P df c n ;; descent_step P df c s (S n)).
Proof.
  unfold descent_run. rewrite seq_S, foldM_app.
  destruct (foldM _ (seq 1 n) _); simpl; [|reflexivity].
  rewrite bind_ok_r. reflexivity.
Qed.

Lemma validate_descent_cases l pts st ml mg c l' :
  validate_and_append_descent l pts st ml mg c = Ok l' ->
  l' = l \/
  exists r, l' = l ++ [r] /\ descent_record_ok r /\
    start_distance r = distance (first_row pts) /\
    end_distance r = distance (last_row pts).
Proof.
  unfold validate_and_append_descent. cbv zeta.
  destruct (_ <? _)%nat; [intro H; inversion H; left; reflexivity|].
  destruct (_ || _)%bool; [intro H; inversion H; left; reflexivity|].
  destruct (_ && _)%bool.
  - destruct (count_sharp_turns pts c); simpl; intro H; inversion H.
    right. eexists. split; [reflexivity|]. repeat split.
  - simpl. intro H; inversion H.
    right. eexists. split; [reflexivity|]. repeat split.
Qed.

Lemma validate_descent_slice l df a b st ml mg c l' :
  (a <= b)%nat -> (b < length df)%nat -> Forall (cand_ok df) l ->
  validate_and_append_descent l (slice df a b) st ml mg c = Ok l' ->
  Forall (cand_ok df) l'.
Proof.
  intros H1 H2 Hl Hv.
  destruct (validate_descent_cases _ _ _ _ _ _ _ Hv) as [->|[r [-> [_ [Hs He]]]]];
    [exact Hl|].
  apply Forall_app. split; [exact Hl|]. constructor; [|constructor].
  exists a, b. split; [exact H1|]. split; [exact H2|].
  rewrite Hs, He, first_row_slice, last_row_slice by lia. split; reflexivity.
Qed.

Lemma descent_step_inv P df c n s s' :
  descent_inv P df n s -> (S n < length df)%nat -> Forall (cand_ok df) (found s) ->
  descent_step P df c s (S n) = Ok s' ->
  descent_inv P df (S n) s' /\ Forall (cand_ok df) (found s').
Proof.
  intros Hinv Hlen Hf. unfold descent_inv in Hinv. unfold descent_step.
  replace (S n - 1)%nat with n by lia. cbv zeta.
  destruct (state s) eqn:Est.
  - destruct (qle _ _) eqn:E; intro H; inversion H; subst; clear H;
      unfold descent_inv; simpl.
    + split; [|exact Hf]. split; [lia|]. symmetry. apply slice_pair. exact Hlen.
    + rewrite Est. split; [exact Hinv | exact Hf].
  - contradiction.
  - destruct Hinv as [H1 H2].
    destruct (qle _ _) eqn:E; intro H; inversion H; subst; clear H;
      unfold descent_inv; simpl; (split; [|exact Hf]).
    + split; [lia|]. rewrite H2. symmetry. apply slice_extend; lia.
    + split; [lia|]. split; [lia|]. split.
      * rewrite H2. symmetry. apply slice_extend; lia.
      * intros k Hk. replace k with (S n) by lia. exact E.
  - destruct Hinv as [H1 [H2 [H3 H4]]].
    destruct (qle _ _) eqn:E.
    + intro H; inversion H; subst; clear H. unfold descent_inv; simpl.
      split; [|exact Hf]. split; [lia|]. rewrite H3. symmetry. apply slice_extend; lia.
    + destruct (_ || _)%bool.
      * rewrite H3, <- slice_extend by lia. rewrite py_slice_neg_slice by lia.
        destruct (validate_and_append_descent _ _ _ _ _ _) as [ds|e] eqn:Hv;
          cbn [bind]; intro H; inversion H; subst; clear H.
        unfold descent_inv; simpl. split; [reflexivity|].
        refine (validate_descent_slice _ _ _ _ _ _ _ _ _ _ _ Hf Hv); lia.
      * intro H; inversion H; subst; clear H. unfold descent_inv; simpl.
        split; [|exact Hf]. split; [lia|]. split; [lia|]. split.
        -- rewrite H3. symmetry. apply slice_extend; lia.
        -- intros k Hk. destruct (Nat.eq_dec k (S n)) as [->|Hne]; [exact E|].
           apply H4. lia.
Qed.

Lemma descent_run_inv P df c n s :
  (n < length df)%nat -> descent_run P df c n = Ok s ->
  descent_inv P df n s /\ Forall (cand_ok df) (found s).
Proof.
  revert s; induction n as [|n IH]; intros s H Hr.
  - inversion Hr; subst. split; [reflexivity | constructor].
  - rewrite descent_run_S in Hr.
    destruct (descent_run P df c n) as [s0|e] eqn:E0; [|discriminate].
    simpl in Hr. destruct (IH s0 ltac:(lia) eq_refl) as [Hi Hf].
    exact (descent_step_inv P df c n s0 s Hi H Hf Hr).
Qed.

Lemma detect_descents_cands P df c ds :
  detect_descents P df c = Ok ds -> Forall (cand_ok df) ds.
Proof.
  unfold detect_descents.
  assert (Hc : length df = 0%nat \/ exists m, length df = S m)
    by (destruct (length df); eauto).
  destruct Hc as [Hlen|[m Hlen]]; rewrite Hlen.
  - simpl. intro H. inversion H. constructor.
  - replace (S m - 1)%nat with m by lia.
    destruct (descent_run P df c m) as [s|e] eqn:Er; [|discriminate]. cbn [bind].
    destruct (descent_run_inv P df c m s ltac:(lia) Er) as [Hinv Hf].
    unfold descent_inv in Hinv.
    destruct (state s); destruct (segment_points s) eqn:Ep;
      try (intro H; inversion H; subst; exact Hf).
    + destruct Hinv as [H1 H2]. rewrite H2. intro Hv.
      refine (validate_descent_slice _ _ _ _ _ _ _ _ _ _ _ Hf Hv); lia.
    + destruct Hinv as [H1 [H2 [H3 H4]]]. rewrite H3. intro Hv.
      refine (validate_descent_slice _ _ _ _ _ _ _ _ _ _ _ Hf Hv); lia.
Qed.

Lemma descent_step_records P df c s i s' :
  Forall descent_record_ok (found s) -> descent_step P df c s i = Ok s' ->
  Forall descent_record_ok (found s').
Proof.
  intro Hf. unfold descent_step. cbv zeta.
  destruct (state s);
    try (destruct (qle _ _));
    try (intro H; inversion H; subst; exact Hf).
  destruct (_ || _)%bool; [|intro H; inversion H; subst; exact Hf].
  destruct (validate_and_append_descent _ _ _ _ _ _) as [ds|e] eqn:Hv;
    cbn [bind]; intro H; inversion H; subst; clear H. cbn [found].
  destruct (validate_descent_cases _ _ _ _ _ _ _ Hv) as [->|[r [-> [Hr _]]]]; [exact Hf|].
  apply Forall_app. split; [exact Hf | constructor; [exact Hr | constructor]].
Qed.

(** ** One-directional elevation fields *)

(** Claim C10: every climb record emitted by [_detect_climbs] has
    [elevation_loss = 0] and [elevation_change = elevation_gain], and every
    descent record emitted by [_detect_descents] has [elevation_gain = 0] and
    [elevation_change = - elevation_loss], on every frame and whatever the
    counter-directional movement inside the segment. *)
Theorem detector_records_one_directional :
  (forall P df, Forall climb_record_ok (detect_climbs P df)) /\
  (forall P df c ds, detect_descents P df c = Ok ds -> Forall descent_record_ok ds).
Proof.
  split.
  - intros P df. unfold detect_climbs.
    assert (Hf : Forall climb_record_ok (found (climb_run P df (length df - 1)))).
    { unfold climb_run. generalize (seq 1 (length df - 1)).
      assert (H0 : Forall climb_record_ok (found detector_init)) by constructor.
      revert H0. generalize detector_init.
      intros s0 H0 l. revert s0 H0. induction l as [|i l IH]; intros s0 H0; simpl.
      - exact H0.
      - apply IH. apply climb_step_records. exact H0. }
    destruct (climb_run P df (length df - 1)) as [st a pts b c0 d fs]; cbn [state segment_points found start_idx] in *.
    destruct st, pts; try exact Hf;
    match goal with |- context [validate_and_append_climb ?l ?p ?a ?b ?c] =>
      destruct (validate_climb_cases l p a b c) as [->|[rc [-> [Hr _]]]] end;
    try exact Hf;
    apply Forall_app; (split; [exact Hf | constructor; [exact Hr | constructor]]).
  - intros P df c ds. unfold detect_descents.
    assert (Hf : forall s, descent_run P df c (length df - 1) = Ok s ->
                           Forall descent_record_ok (found s)).
    { unfold descent_run. generalize (seq 1 (length df - 1)).
      assert (H0 : Forall descent_record_ok (found detector_init)) by constructor.
      revert H0. generalize detector_init.
      intros s0 H0 l. revert s0 H0. induction l as [|i l IH]; intros s0 H0 s; simpl.
      - intro H; inversion H; subst; exact H0.
      - destruct (descent_step P df c s0 i) as [s1|e] eqn:E; simpl; [|discriminate].
        apply IH. exact (descent_step_records P df c s0 i s1 H0 E). }
    destruct (descent_run P df c (length df - 1)) as [s|e] eqn:Er; cbn [bind]; [|discriminate].
    specialize (Hf s eq_refl).
    destruct (state s), (segment_points s);
      try (intro H; inversion H; subst; exact Hf);
    intro Hv;
    destruct (validate_descent_cases _ _ _ _ _ _ _ Hv) as [->|[rc [-> [Hr _]]]];
    try exact Hf;
    apply Forall_app; (split; [exact Hf | constructor; [exact Hr | constructor]]).
Qed.

(** The descent half of C10 on the mirrored profile, where the detector
    emits one descent record. *)
Lemma detector_records_one_directional_witness :
  exists ds, detect_descents descent_defaults (profile_rows drop_alt rise_dist 10) PyNone = Ok ds /\
    length ds = 1%nat /\ Forall descent_record_ok ds.
Proof.
  eexists. split; [vm_compute; reflexivity|]. split; [vm_compute; reflexivity|].
  apply (proj2 detector_records_one_directional descent_defaults
           (profile_rows drop_alt rise_dist 10) PyNone).
  vm_compute. reflexivity.
Defined.

(** ** A failed pause *)

(** Claim C2: when a pause fails at row [S n] of [_detect_climbs] (the
    state is [EVALUATING_PAUSE], the slope is below [end_threshold], and the
    pause length or the counter-elevation exceeds its cap), the pause began
    after row [pause_start_idx], every row since then is a pause row, the
    candidate validated is exactly the rows [start_idx .. pause_start_idx]
    collected before the pause, and the detector returns to [SEARCHING]
    holding no point. The same for [_detect_descents]. This holds for
    every [n], i.e. for pauses of any number of iterations. *)
Theorem pause_failure_keeps_prepause_points :
  (forall P df n,
    (S n < length df)%nat ->
    let s := climb_run P df n in
    let point := nth (S n) df dummy_row in
    let prev := nth n df dummy_row in
    let pl := pause_length s + (distance point - distance prev) in
    let pd := if qlt (ele point - ele prev) 0
              then pause_counter s + Qabs (ele point - ele prev) else pause_counter s in
    state s = EVALUATING_PAUSE ->
    qle (end_threshold P) (plot_grade point) = false ->
    (qlt (max_pause_length_m P) pl || qlt (max_pause_counter_m P) pd)%bool = true ->
    (start_idx s < pause_start_idx s)%nat /\ (pause_start_idx s < S n)%nat /\
    segment_points s = slice df (start_idx s) n /\
    (forall k, (pause_start_idx s < k <= S n)%nat ->
               qle (end_threshold P) (plot_grade (nth k df dummy_row)) = false) /\
    climb_step P df s (S n) =
      mkdstate SEARCHING (start_idx s) [] (pause_start_idx s) pl pd
        (validate_and_append_climb (found s)
           (slice df (start_idx s) (pause_start_idx s)) (start_idx s)
           (min_length_m P) (min_change_m P))) /\
  (forall P df c n s,
    (S n < length df)%nat ->
    descent_run P df c n = Ok s ->
    let point := nth (S n) df dummy_row in
    let prev := nth n df dummy_row in
    let pl := pause_length s + (distance point - distance prev) in
    let pa := if qlt 0 (ele point - ele prev)
              then pause_counter s + (ele point - ele prev) else pause_counter s in
    state s = EVALUATING_PAUSE ->
    qle (plot_grade point) (end_threshold P) = false ->
    (qlt (max_pause_length_m P) pl || qlt (max_pause_counter_m P) pa)%bool = true ->
    (start_idx s < pause_start_idx s)%nat /\ (pause_start_idx s < S n)%nat /\
    segment_points s = slice df (start_idx s) n /\
    (forall k, (pause_start_idx s < k <= S n)%nat ->
               qle (plot_grade (nth k df dummy_row)) (end_threshold P) = false) /\
    descent_step P df c s (S n) =
      (ds <- validate_and_append_descent (found s)
               (slice df (start_idx s) (pause_start_idx s)) (start_idx s)
               (min_length_m P) (min_change_m P) c ;;
       Ok (mkdstate SEARCHING (start_idx s) [] (pause_start_idx s) pl pa ds))).
Proof.
  split.
  - intros P df n Hlen s point prev pl pd Hst Hslope Hcap.
    pose proof (climb_run_inv P df n ltac:(lia)) as Hinv.
    fold s in Hinv. unfold climb_inv in Hinv. rewrite Hst in Hinv.
    destruct Hinv as [H1 [H2 [H3 H4]]].
    split; [exact H1|]. split; [lia|]. split; [exact H3|]. split.
    + intros k Hk. destruct (Nat.eq_dec k (S n)) as [->|Hne]; [exact Hslope|].
      apply H4. lia.
    + unfold climb_step. replace (S n - 1)%nat with n by lia. cbv zeta.
      rewrite Hst. fold point prev. fold pl pd. rewrite Hslope, Hcap.
      rewrite H3, <- slice_extend by lia. rewrite py_slice_neg_slice by lia.
      reflexivity.
  - intros P df c n s Hlen Hrun point prev pl pa Hst Hslope Hcap.
    destruct (descent_run_inv P df c n s ltac:(lia) Hrun) as [Hinv _].
    unfold descent_inv in Hinv. rewrite Hst in Hinv.
    destruct Hinv as [H1 [H2 [H3 H4]]].
    split; [exact H1|]. split; [lia|]. split; [exact H3|]. split.
    + intros k Hk. destruct (Nat.eq_dec k (S n)) as [->|Hne]; [exact Hslope|].
      apply H4. lia.
    + unfold descent_step. replace (S n - 1)%nat with n by lia. cbv zeta.
      rewrite Hst. fold point prev. fold pl pa. rewrite Hslope, Hcap.
      rewrite H3, <- slice_extend by lia. rewrite py_slice_neg_slice by lia.
      reflexivity.
Qed.

(** On [pause_rows] the pause fails at row 5 after two pause rows: the
    climb kept ends at 400 m, before the pause; likewise for the mirror. *)
Lemma pause_failure_keeps_prepause_points_witness :
  (exists r, climb_step climb_defaults pause_rows (climb_run climb_defaults pause_rows 4) 5 = r /\
     state r = SEARCHING /\ segment_points r = [] /\ map end_distance (found r) = [400]) /\
  (exists r, descent_step descent_defaults pause_rows_down PyNone
               (match descent_run descent_defaults pause_rows_down PyNone 4 with
                | Ok s => s | Raise _ => detector_init end) 5 = Ok r /\
     state r = SEARCHING /\ segment_points r = [] /\ map end_distance (found r) = [400]).
Proof.
  split.
  - destruct (proj1 pause_failure_keeps_prepause_points climb_defaults pause_rows 4%nat)
      as [_ [_ [_ [_ H5]]]];
      [vm_compute; lia | vm_compute; reflexivity | vm_compute; reflexivity
      | vm_compute; reflexivity |].
    eexists. split; [exact H5|]. vm_compute. split; [reflexivity|]. split; reflexivity.
  - destruct (proj2 pause_failure_keeps_prepause_points descent_defaults pause_rows_down PyNone 4%nat
               (match descent_run descent_defaults pause_rows_down PyNone 4 with
                | Ok s => s | Raise _ => detector_init end))
      as [_ [_ [_ [_ H5]]]];
      [vm_compute; lia | vm_compute; reflexivity | vm_compute; reflexivity
      | vm_compute; reflexivity | vm_compute; reflexivity |].
    rewrite H5. vm_compute. eexists. split; [reflexivity|].
    split; [reflexivity|]. split; reflexivity.
Defined.

(** ** The span measured by the sharp-turn counter *)

Lemma foldM_count (f : nat -> nat -> result nat) (p : nat -> bool) l acc :
  (forall a i, In i l -> f a i = Ok (if p i then S a else a)) ->
  foldM f l acc = Ok (acc + length (filter p l))%nat.
Proof.
  revert acc; induction l as [|i t IH]; intros acc H; simpl.
  - f_equal. lia.
  - rewrite (H acc i (or_introl eq_refl)). cbn [bind].
    rewrite IH by (intros a j Hj; apply H; right; exact Hj).
    destruct (p i); simpl; f_equal; lia.
Qed.

(** C4 (failing input): [_count_sharp_turns] does not read the
    coordinates of the segment.  [segment_df] is built from [to_dict()]
    rows and has a fresh 0-based index, so [segment_df.index[0]] is 0 and
    the slice is [coordinates[0 : len(segment)]], taken from the start of
    the route whatever row the descent starts at.  For a segment of at least
    3 rows and a coordinate list of (lat, lon) pairs covering it, the count
    is the number of interior points [i] of that prefix whose angle exceeds
    60 degrees and whose span [d[i+1] - d[i-1]] is under 50 m.  A right angle
    between neighbours 30 m apart counts and one between neighbours 200 m
    apart does not, as the specification says.  But on [late_turn_alt] the
    Minor Descent over the rows 9 .. 59 gets [sharp_turns = 0], while its own
    coordinates [coordinates[9 : 60]] hold one right angle that counts,
    by the specification's rule (span two before to two after: 40 m) and by
    the code's own counter alike. *)
Theorem sharp_turns_read_route_start :
  (forall seg cs, (3 <= length seg)%nat -> (length seg <= length cs)%nat ->
     count_sharp_turns seg (PyList (map coord_pair cs)) =
     Ok (sharp_turns_neighbour_span seg (map coord_pair (firstn (length seg) cs)))) /\
  count_sharp_turns turn30_rows (PyList (map coord_pair right_angle)) = Ok 1%nat /\
  count_sharp_turns turn200_rows (PyList (map coord_pair right_angle)) = Ok 0%nat /\
  (exists segs d,
     cut_segment late_turn_alt late_turn_dist (PyList (map coord_pair late_turn_coords)) 1 = Ok segs /\
     In d segs /\ seg_type d = "descent"%string /\ category d <> "Uncategorized"%string /\
     seg_start_idx d = 9%nat /\ seg_end_idx d = 59%nat /\ sharp_turns d = Some 0%nat /\
     sharp_turns_claimed (slice (profile_rows late_turn_alt late_turn_dist 1) 9 59)
       (map coord_pair (slice late_turn_coords 9 59)) = 1%nat /\
     count_sharp_turns (slice (profile_rows late_turn_alt late_turn_dist 1) 9 59)
       (PyList (map coord_pair (slice late_turn_coords 9 59))) = Ok 1%nat).
Proof.
  split; [|split; [vm_compute; reflexivity|split; [vm_compute; reflexivity|]]].
  2:{ do 2 eexists. split; [vm_compute; reflexivity|].
      split; [cbn [In]; right; left; reflexivity|].
      vm_compute. repeat split; try reflexivity. discriminate. }
  intros seg cs H3 Hle.
  unfold count_sharp_turns.
  destruct cs as [|c0 cs']; [simpl in Hle; lia|]. set (cs := c0 :: cs') in *.
  replace (negb (py_truthy (PyList (map coord_pair cs))) || (length seg <? 3)%nat)%bool
    with false by (symmetry; apply orb_false_iff; split;
                   [reflexivity | apply Nat.ltb_ge; exact H3]).
  cbn [py_len bind]. rewrite length_map.
  replace ((length cs <=? length seg - 1)%nat || (length cs <=? 0)%nat)%bool
    with false by (symmetry; apply orb_false_iff; split; apply Nat.leb_gt; lia).
  cbn [py_slice bind skipn].
  replace (length seg - 1 + 1 - 0)%nat with (length seg) by lia.
  rewrite firstn_map.
  assert (Hm : length (firstn (length seg) cs) = length seg)
    by (rewrite length_firstn; lia).
  unfold sharp_turns_neighbour_span.
  set (m := firstn (length seg) cs) in *.
  change (length (filter ?p ?l)) with (0 + length (filter p l))%nat.
  apply foldM_count. intros a i Hi.
  apply in_seq in Hi. rewrite length_map, Hm in Hi.
  destruct (calculate_angle (nth (i - 1) (map coord_pair m) PyNone)
              (nth i (map coord_pair m) PyNone)
              (nth (i + 1) (map coord_pair m) PyNone)) as [ang|e] eqn:Ea.
  - cbn [bind]. replace (i <? length seg - 1)%nat with true
      by (symmetry; apply Nat.ltb_lt; lia).
    destruct (_ && _)%bool; reflexivity.
  - exfalso. rewrite !nth_map_pair in Ea by lia.
    destruct (calculate_angle_pairs (nth (i - 1) m (0, 0)) (nth i m (0, 0))
                                    (nth (i + 1) m (0, 0))) as [ang Hang].
    rewrite Hang in Ea. discriminate.
Qed.

(** The route with a right angle between neighbours 40 m apart counts one
    sharp turn. *)
Lemma sharp_turns_read_route_start_witness :
  (3 <= length turn_rows)%nat /\ (length turn_rows <= length turn_coords)%nat /\
  count_sharp_turns turn_rows (PyList (map coord_pair turn_coords)) = Ok 1%nat.
Proof.
  assert (H1 : (3 <= length turn_rows)%nat) by (vm_compute; lia).
  assert (H2 : (length turn_rows <= length turn_coords)%nat) by (vm_compute; lia).
  split; [exact H1|]. split; [exact H2|].
  rewrite (proj1 sharp_turns_read_route_start turn_rows turn_coords H1 H2).
  vm_compute. reflexivity.
Defined.

(** ** The records of the gap filler *)

Lemma foldM_inv {A B} (I : A -> Prop) (f : A -> B -> result A) l a b :
  I a -> (forall a x b, In x l -> I a -> f a x = Ok b -> I b) ->
  foldM f l a = Ok b -> I b.
Proof.
  revert a; induction l as [|x t IH]; intros a Ha Hf; simpl.
  - intro H; inversion H; subst; exact Ha.
  - destruct (f a x) as [a'|e] eqn:E; cbn [bind]; [|discriminate].
    apply IH; [exact (Hf a x a' (or_introl eq_refl) Ha E)|].
    intros a0 y b0 Hy. apply Hf. right. exact Hy.
Qed.

Lemma flat_type_typed g : grade_typed (flat_type g) g.
Proof.
  destruct g as [g|]; simpl; [|reflexivity].
  destruct (qlt 1 g) eqn:E1; [left; split; [apply qlt_spec; exact E1 | reflexivity]|].
  destruct (qlt g (-1)) eqn:E2;
    [right; left; split; [apply qlt_spec; exact E2 | reflexivity]|].
  right; right. apply qlt_false in E1. apply qlt_false in E2.
  split; [split; assumption | reflexivity].
Qed.

Lemma create_flat_segment_ok df a b g s :
  create_flat_segment df a b g = Ok s ->
  category s = "Uncategorized"%string /\ sharp_turns s = None /\ seg_grade s = g /\
  seg_type s = flat_type g /\ seg_start_idx s = a /\ seg_end_idx s = b /\
  exists r1 r2, nth_error df a = Some r1 /\ nth_error df b = Some r2 /\
    start_distance s = distance r1 /\ end_distance s = distance r2.
Proof.
  unfold create_flat_segment, iloc.
  destruct (nth_error df a) as [r1|] eqn:E1; cbn [bind]; [|discriminate].
  destruct (nth_error df b) as [r2|] eqn:E2; cbn [bind]; [|discriminate].
  intro H; inversion H; subst; clear H. cbn.
  repeat split. exists r1, r2. repeat split; assumption.
Qed.

Lemma create_flat_segment_filler df a b s :
  create_flat_segment df a b (gap_mean df a b) = Ok s -> filler_ok df s.
Proof.
  intro H. destruct (create_flat_segment_ok _ _ _ _ _ H) as [Hc [Hs [Hg [Ht [Ha [Hb _]]]]]].
  split; [exact Hc|]. split; [exact Hs|]. split.
  - rewrite Hg, Ha, Hb. reflexivity.
  - rewrite Ht, Hg. apply flat_type_typed.
Qed.

Lemma slice_all {A} (l : list A) : (1 <= length l)%nat -> slice l 0 (length l - 1) = l.
Proof.
  intro H. unfold slice. cbn [skipn]. apply firstn_all2. lia.
Qed.

(** Claim C8 (amended): every record returned by [_fill_gaps] is one of its
    input candidates or a filler that is "Uncategorized", has no
    [sharp_turns] field, and whose type is set by its grade, the mean
    smoothed grade of the rows it spans (above 1 % uphill, below -1 %
    downhill, otherwise, a NaN mean included, flat).  With no candidate
    the result is one filler spanning the rows [0 .. N-1]. *)
Theorem fill_gaps_fillers :
  (forall df segs out, fill_gaps df segs = Ok out ->
     forall s, In s out -> In s segs \/ filler_ok df s) /\
  (forall df, (1 <= length df)%nat ->
     exists s, fill_gaps df [] = Ok [s] /\ filler_ok df s /\
       seg_start_idx s = 0%nat /\ seg_end_idx s = (length df - 1)%nat /\
       start_distance s = distance (nth 0 df dummy_row) /\
       end_distance s = distance (nth (length df - 1) df dummy_row)).
Proof.
  split.
  - intros df segs out. unfold fill_gaps. destruct segs as [|s0 rest] eqn:Es.
    + destruct (create_flat_segment df 0 (length df - 1) (mean (map plot_grade df)))
        as [f|e] eqn:Ef; cbn [bind]; [|discriminate].
      intro H; inversion H; subst; clear H.
      intros s [<-|[]]. right.
      destruct (create_flat_segment_ok _ _ _ _ _ Ef) as [Hc [Hs [Hg [Ht [Ha [Hb [r1 [r2 [E1 _]]]]]]]]].
      assert (Hl : (1 <= length df)%nat)
        by (destruct df; [discriminate | simpl; lia]).
      split; [exact Hc|]. split; [exact Hs|]. split.
      * rewrite Hg, Ha, Hb. unfold gap_mean. rewrite slice_all by exact Hl. reflexivity.
      * rewrite Ht, Hg. apply flat_type_typed.
    + rewrite <- Es.
      set (I := fun acc : list segment * Q =>
                  forall s, In s (fst acc) -> In s segs \/ filler_ok df s).
      destruct (foldM (fill_step df) segs ([], 0)) as [[filled le]|e] eqn:Ef;
        cbn [bind]; [|discriminate].
      assert (HI : I (filled, le)).
      { apply (foldM_inv I (fill_step df) segs ([], 0)); [intros s []| |exact Ef].
        intros [fl l0] x [fl' l1] Hx Hacc. unfold fill_step.
        destruct (qlt _ _).
        - destruct (index_first _) as [a|e]; cbn [bind]; [|discriminate].
          destruct (index_last _) as [b|e]; cbn [bind]; [|discriminate].
          destruct (create_flat_segment df a b (gap_mean df a b)) as [g|e] eqn:Eg;
            cbn [bind]; [|discriminate].
          intro H; inversion H; subst; clear H. intros s Hs. cbn [fst] in Hs.
          apply in_app_or in Hs. destruct Hs as [Hs|[<-|[]]]; [|left; exact Hx].
          destruct (qlt 50 _); [|exact (Hacc s Hs)].
          apply in_app_or in Hs. destruct Hs as [Hs|[<-|[]]]; [exact (Hacc s Hs)|].
          right. exact (create_flat_segment_filler _ _ _ _ Eg).
        - intro H; inversion H; subst; clear H. intros s Hs. cbn [fst] in Hs.
          apply in_app_or in Hs. destruct Hs as [Hs|[<-|[]]]; [exact (Hacc s Hs)|].
          left. exact Hx. }
      unfold I in HI; cbn [fst] in HI.
      destruct (iloc df (length df - 1)) as [lr|e]; cbn [bind]; [|discriminate].
      destruct (qlt _ _); [|intro H; inversion H; subst; exact HI].
      destruct (index_first _) as [a|e]; cbn [bind]; [|discriminate].
      destruct (create_flat_segment df a (length df - 1) (gap_mean df a (length df - 1)))
        as [g|e] eqn:Eg; cbn [bind]; [|discriminate].
      destruct (qlt 50 _); intro H; inversion H; subst; clear H; [|exact HI].
      intros s Hs. apply in_app_or in Hs. destruct Hs as [Hs|[<-|[]]]; [exact (HI s Hs)|].
      right. exact (create_flat_segment_filler _ _ _ _ Eg).
  - intros df Hl. unfold fill_gaps.
    replace (mean (map plot_grade df)) with (gap_mean df 0 (length df - 1))
      by (unfold gap_mean; rewrite slice_all by exact Hl; reflexivity).
    destruct (create_flat_segment df 0 (length df - 1) (gap_mean df 0 (length df - 1)))
      as [f|e] eqn:Ef.
    + exists f. split; [reflexivity|]. split; [exact (create_flat_segment_filler _ _ _ _ Ef)|].
      destruct (create_flat_segment_ok _ _ _ _ _ Ef)
        as [_ [_ [_ [_ [Ha [Hb [r1 [r2 [E1 [E2 [Hs He]]]]]]]]]]].
      split; [exact Ha|]. split; [exact Hb|].
      rewrite Hs, He. rewrite (nth_error_nth _ _ dummy_row E1), (nth_error_nth _ _ dummy_row E2).
      split; reflexivity.
    + exfalso. revert Ef. unfold create_flat_segment, iloc.
      destruct (nth_error df 0) eqn:E1;
        [|apply nth_error_None in E1; lia].
      destruct (nth_error df (length df - 1)) eqn:E2;
        [|apply nth_error_None in E2; lia].
      discriminate.
Qed.

(** On the flat route the result is the single filler over all ten rows. *)
Lemma fill_gaps_fillers_witness :
  exists s, fill_gaps (profile_rows flat_alt flat_dist 10) [] = Ok [s] /\
    seg_start_idx s = 0%nat /\ seg_end_idx s = 9%nat /\ seg_type s = "flat"%string.
Proof.
  destruct (proj2 fill_gaps_fillers (profile_rows flat_alt flat_dist 10))
    as [s [H1 [_ [H3 [H4 _]]]]]; [vm_compute; lia|].
  exists s. split; [exact H1|]. split; [exact H3|]. split.
  - rewrite H4. vm_compute. reflexivity.
  - revert H1. vm_compute. intro H; inversion H. reflexivity.
Defined.

(** ** The order of the result of [cut_segment] *)

Lemma map_zip_with_l {A B C D} (f : A -> B -> C) (g : C -> D) (h : A -> D) l1 l2 :
  (forall a b, g (f a b) = h a) -> (length l1 <= length l2)%nat ->
  map g (zip_with f l1 l2) = map h l1.
Proof.
  intro Hf. revert l2; induction l1 as [|x t IH]; intros [|y t2] Hl; simpl in *;
    try reflexivity; try lia.
  rewrite Hf, IH by lia. reflexivity.
Qed.

Lemma map_snd_zip {A B} (l1 : list A) (l2 : list B) :
  length l1 = length l2 -> map snd (zip_with pair l1 l2) = l2.
Proof.
  revert l2; induction l1 as [|x t IH]; intros [|y t2] Hl; simpl in *;
    try reflexivity; try lia.
  rewrite IH by lia. reflexivity.
Qed.

Lemma length_zip_pair {A B} (l1 : list A) (l2 : list B) :
  length (zip_with pair l1 l2) = Nat.min (length l1) (length l2).
Proof. apply length_zip_with. Qed.

Lemma make_frame_distance a d la lo df :
  make_frame a d la lo = Ok df -> map p_distance df = d /\ length df = length a.
Proof.
  unfold make_frame.
  destruct (Nat.eqb (length a) (length d)) eqn:E1; [|discriminate].
  destruct (Nat.eqb (length a) (length la)) eqn:E2; [|discriminate].
  destruct (Nat.eqb (length a) (length lo)) eqn:E3; [|discriminate].
  apply Nat.eqb_eq in E1, E2, E3. cbn [andb].
  intro H; inversion H; subst; clear H. split.
  - rewrite (map_zip_with_l _ p_distance snd).
    + apply map_snd_zip. exact E1.
    + intros [x y] [z w]. reflexivity.
    + rewrite !length_zip_pair. lia.
  - rewrite length_zip_with, !length_zip_pair. lia.
Qed.

Lemma length_calculate_grades df : length (calculate_grades df) = length df.
Proof.
  unfold calculate_grades. rewrite length_zip_with, !length_diff, !length_map. lia.
Qed.

Lemma apply_smoothing_length g w pg :
  apply_smoothing g w = Ok pg -> length pg = length g.
Proof.
  unfold apply_smoothing. destruct (_ <? _)%Z; [discriminate|].
  intro H; inversion H; subst. unfold rolling_mean.
  rewrite !length_map, length_seq. reflexivity.
Qed.

Lemma add_columns_distance df g pg :
  length g = length df -> length pg = length df ->
  map distance (add_columns df g pg) = map p_distance df.
Proof.
  intros Hg Hpg. unfold add_columns. apply map_zip_with_l.
  - intros p [x y]. reflexivity.
  - rewrite length_zip_pair. lia.
Qed.

Lemma dist_sorted_of_map df (d : list Q) :
  map distance df = d ->
  (forall i j, (i <= j < length d)%nat -> nth i d 0 <= nth j d 0) ->
  dist_sorted df.
Proof.
  intros Hm Hd i j Hij.
  assert (Hl : length df = length d) by (rewrite <- Hm, length_map; reflexivity).
  rewrite <- (map_nth distance df dummy_row i), <- (map_nth distance df dummy_row j), Hm.
  apply Hd. lia.
Qed.

(** [insert_by_start] and [sort_by_start] *)

Lemma start_le_trans a b c : start_le a b -> start_le b c -> start_le a c.
Proof. unfold start_le. apply Qle_trans. Qed.

Lemma in_insert_by_start x l y : In y (insert_by_start x l) <-> x = y \/ In y l.
Proof.
  induction l as [|z t IH]; simpl; [tauto|].
  destruct (qlt _ _); simpl; [tauto|]. rewrite IH. tauto.
Qed.

Lemma insert_by_start_sorted x l :
  StronglySorted start_le l -> StronglySorted start_le (insert_by_start x l).
Proof.
  induction l as [|y t IH]; intro Hs; simpl.
  - repeat constructor.
  - apply StronglySorted_inv in Hs. destruct Hs as [Ht Hy].
    destruct (qlt (start_distance x) (start_distance y)) eqn:E.
    + constructor; [constructor; assumption|].
      apply qlt_spec in E.
      constructor; [unfold start_le; apply Qlt_le_weak; exact E|].
      eapply Forall_impl; [|exact Hy]. intros z Hz.
      unfold start_le in *. apply Qle_trans with (start_distance y); [lra|exact Hz].
    + apply qlt_false in E. constructor; [apply IH; exact Ht|].
      apply Forall_forall. intros z Hz. apply in_insert_by_start in Hz.
      destruct Hz as [->|Hz]; [exact E|].
      rewrite Forall_forall in Hy. apply Hy. exact Hz.
Qed.

Lemma sort_by_start_spec l :
  StronglySorted start_le (sort_by_start l) /\
  (forall y, In y (sort_by_start l) <-> In y l).
Proof.
  unfold sort_by_start.
  assert (H : forall acc, StronglySorted start_le acc ->
            StronglySorted start_le (fold_left (fun acc x => insert_by_start x acc) l acc) /\
            forall y, In y (fold_left (fun acc x => insert_by_start x acc) l acc) <->
                      In y acc \/ In y l).
  { induction l as [|x t IH]; intros acc Hacc; simpl.
    - split; [exact Hacc|]. tauto.
    - destruct (IH (insert_by_start x acc) (insert_by_start_sorted x acc Hacc)) as [H1 H2].
      split; [exact H1|]. intro y. rewrite H2, in_insert_by_start. simpl. tauto. }
  destruct (H [] (SSorted_nil _)) as [H1 H2]. split; [exact H1|].
  intro y. rewrite H2. simpl. tauto.
Qed.

(** [df[cond].index[0]] is the first row satisfying [cond] *)

Lemma filter_seq_head (f : nat -> bool) s n a t :
  filter f (seq s n) = a :: t ->
  f a = true /\ (s <= a < s + n)%nat /\
  forall k, (s <= k < s + n)%nat -> f k = true -> (a <= k)%nat.
Proof.
  revert s; induction n as [|n IH]; intro s; simpl; [discriminate|].
  destruct (f s) eqn:E.
  - intro H; inversion H; subst. split; [exact E|]. split; [lia|]. intros; lia.
  - intro H. destruct (IH (S s) H) as [H1 [H2 H3]].
    split; [exact H1|]. split; [lia|]. intros k Hk Hfk.
    destruct (Nat.eq_dec k s) as [->|Hne]; [congruence|]. apply H3; [lia|exact Hfk].
Qed.

Lemma index_first_where p df a :
  index_first (index_where p df) = Ok a ->
  p (nth a df dummy_row) = true /\ (a < length df)%nat /\
  forall k, (k < length df)%nat -> p (nth k df dummy_row) = true -> (a <= k)%nat.
Proof.
  unfold index_first, index_where.
  destruct (filter _ _) as [|a' t] eqn:E; [discriminate|].
  intro H; inversion H; subst.
  destruct (filter_seq_head _ _ _ _ _ E) as [H1 [H2 H3]].
  split; [exact H1|]. split; [lia|]. intros k Hk Hp. apply H3; [lia|exact Hp].
Qed.

(** [_fill_gaps] keeps the order of its input *)

Section FillOrder.
Variable df : list row.
Hypothesis Hsorted : dist_sorted df.

Lemma cand_start_end r :
  cand_ok df r -> start_distance r <= end_distance r.
Proof.
  intros [a [b [Hab [Hb [Hs He]]]]]. rewrite Hs, He. apply Hsorted. lia.
Qed.

Lemma filler_start le g b :
  forall a, index_first (index_where (fun r => qle le (distance r)) df) = Ok a ->
  create_flat_segment df a b (gap_mean df a b) = Ok g ->
  le <= start_distance g /\
  forall k, (k < length df)%nat -> le <= distance (nth k df dummy_row) ->
            start_distance g <= distance (nth k df dummy_row).
Proof.
  intros a Ha Hg.
  destruct (index_first_where _ _ _ Ha) as [H1 [H2 H3]].
  destruct (create_flat_segment_ok _ _ _ _ _ Hg) as [_ [_ [_ [_ [_ [_ [r1 [r2 [E1 [_ [Hs _]]]]]]]]]]].
  rewrite Hs, <- (nth_error_nth df a dummy_row E1).
  split; [apply qle_spec; exact H1|].
  intros k Hk Hle. apply Hsorted. split; [|exact Hk].
  apply H3; [exact Hk | apply qle_spec; exact Hle].
Qed.

Lemma SS_snoc {A} (R : A -> A -> Prop) l y :
  StronglySorted R l -> (forall x, In x l -> R x y) -> StronglySorted R (l ++ [y]).
Proof.
  induction l as [|x t IH]; intros Hs Hy; simpl.
  - repeat constructor.
  - apply StronglySorted_inv in Hs. destruct Hs as [Ht Hx].
    constructor.
    + apply IH; [exact Ht|]. intros z Hz. apply Hy. right. exact Hz.
    + apply Forall_app. split; [exact Hx|]. constructor; [apply Hy; left; reflexivity|constructor].
Qed.

Lemma fill_fold_sorted segs filled le out :
  StronglySorted start_le segs -> Forall (cand_ok df) segs ->
  StronglySorted start_le filled ->
  (forall x, In x filled -> start_distance x <= le /\
                           forall y, In y segs -> start_le x y) ->
  foldM (fill_step df) segs (filled, le) = Ok out ->
  StronglySorted start_le (fst out) /\ forall x, In x (fst out) -> start_distance x <= snd out.
Proof.
  revert filled le. induction segs as [|seg rest IH]; intros filled le Hss Hc Hf Hinv.
  - intro H; inversion H; subst; clear H. cbn [fst snd].
    split; [exact Hf|]. intros x Hx. apply (Hinv x Hx).
  - apply StronglySorted_inv in Hss. destruct Hss as [Hss Hseg].
    rewrite Forall_forall in Hseg.
    pose proof (Forall_inv Hc) as Hcs. apply Forall_inv_tail in Hc.
    pose proof (cand_start_end _ Hcs) as Hse.
    destruct Hcs as [a0 [b0 [Hab0 [Hb0 [Hs0 _]]]]].
    cbn [foldM]. unfold fill_step at 1.
    destruct (qlt (le + 50) (start_distance seg)) eqn:Egap.
    + destruct (index_first _) as [a|e] eqn:Ea; cbn [bind]; [|discriminate].
      destruct (index_last _) as [b|e]; cbn [bind]; [|discriminate].
      destruct (create_flat_segment df a b (gap_mean df a b)) as [g|e] eqn:Eg;
        cbn [bind]; [|discriminate].
      destruct (filler_start le g b a Ea Eg) as [Hg1 Hg2].
      apply qlt_spec in Egap.
      assert (Hgs : start_distance g <= start_distance seg)
        by (rewrite Hs0; apply Hg2; [lia | rewrite <- Hs0; lra]).
      set (filled1 := if qlt 50 (seg_distance g) then filled ++ [g] else filled).
      assert (Hf1 : StronglySorted start_le filled1 /\
                    forall x, In x filled1 -> start_le x seg /\
                              forall y, In y rest -> start_le x y).
      { unfold filled1. destruct (qlt 50 _).
        - split.
          + apply SS_snoc; [exact Hf|]. intros x Hx. unfold start_le.
            apply Qle_trans with le; [apply (Hinv x Hx) | exact Hg1].
          + intros x Hx. apply in_app_or in Hx. destruct Hx as [Hx|[<-|[]]].
            * split; [apply (proj2 (Hinv x Hx)); left; reflexivity|].
              intros y Hy. apply (proj2 (Hinv x Hx)). right. exact Hy.
            * split; [exact Hgs|]. intros y Hy.
              apply start_le_trans with seg; [exact Hgs | apply Hseg; exact Hy].
        - split; [exact Hf|]. intros x Hx.
          split; [apply (proj2 (Hinv x Hx)); left; reflexivity|].
          intros y Hy. apply (proj2 (Hinv x Hx)). right. exact Hy. }
      destruct Hf1 as [Hf1 Hi1].
      apply IH; [exact Hss | exact Hc | |].
      * apply SS_snoc; [exact Hf1|]. intros x Hx. apply (proj1 (Hi1 x Hx)).
      * intros x Hx. apply in_app_or in Hx. destruct Hx as [Hx|[<-|[]]].
        -- split; [|apply (proj2 (Hi1 x Hx))].
           apply Qle_trans with (start_distance seg); [apply (proj1 (Hi1 x Hx)) | exact Hse].
        -- split; [exact Hse|]. intros y Hy. apply Hseg. exact Hy.
    + cbn [bind]. apply (IH (filled ++ [seg]) (end_distance seg) Hss Hc).
      * apply SS_snoc; [exact Hf|]. intros x Hx. apply (proj2 (Hinv x Hx)). left. reflexivity.
      * intros x Hx. apply in_app_or in Hx. destruct Hx as [Hx|[<-|[]]].
        -- split.
           ++ apply Qle_trans with (start_distance seg); [|exact Hse].
              apply (proj2 (Hinv x Hx)). left. reflexivity.
           ++ intros y Hy. apply (proj2 (Hinv x Hx)). right. exact Hy.
        -- split; [exact Hse|]. intros y Hy. apply Hseg. exact Hy.
Qed.

Lemma fill_gaps_sorted segs out :
  StronglySorted start_le segs -> Forall (cand_ok df) segs ->
  fill_gaps df segs = Ok out -> StronglySorted start_le out.
Proof.
  intros Hss Hc. unfold fill_gaps. destruct segs as [|s0 t] eqn:Es.
  - destruct (create_flat_segment _ _ _ _); cbn [bind]; [|discriminate].
    intro H; inversion H; subst. repeat constructor.
  - rewrite <- Es. rewrite <- Es in Hss, Hc.
    destruct (foldM (fill_step df) segs ([], 0)) as [[filled le]|e] eqn:Ef;
      cbn [bind]; [|discriminate].
    destruct (fill_fold_sorted segs [] 0 (filled, le) Hss Hc (SSorted_nil _)
                ltac:(intros x [])) as [H1 H2]; [exact Ef|].
    cbn [fst snd] in H1, H2.
    destruct (iloc df (length df - 1)) as [lr|e]; cbn [bind]; [|discriminate].
    destruct (qlt _ _); [|intro H; inversion H; subst; exact H1].
    destruct (index_first _) as [a|e] eqn:Ea; cbn [bind]; [|discriminate].
    destruct (create_flat_segment df a (length df - 1) (gap_mean df a (length df - 1)))
      as [g|e] eqn:Eg; cbn [bind]; [|discriminate].
    destruct (filler_start le g _ a Ea Eg) as [Hg1 _].
    destruct (qlt 50 _); intro H; inversion H; subst; clear H; [|exact H1].
    apply SS_snoc; [exact H1|]. intros x Hx. unfold start_le.
    apply Qle_trans with le; [apply H2; exact Hx | exact Hg1].
Qed.

End FillOrder.

Lemma nondecreasing_b_step l :
  nondecreasing_b l = true ->
  forall i, (S i < length l)%nat -> nth i l 0 <= nth (S i) l 0.
Proof.
  induction l as [|x t IH]; intros H i Hi; simpl in Hi; [lia|].
  destruct t as [|y t']; simpl in Hi; [lia|].
  cbn [nondecreasing_b] in H. apply andb_true_iff in H. destruct H as [Hxy Ht].
  destruct i as [|i].
  - apply qle_spec. exact Hxy.
  - apply (IH Ht i). simpl. lia.
Qed.

Lemma nondecreasing_b_spec l :
  nondecreasing_b l = true ->
  forall i j, (i <= j < length l)%nat -> nth i l 0 <= nth j l 0.
Proof.
  intros H i j [Hij Hj]. replace j with (i + (j - i))%nat by lia.
  assert (Hk : (i + (j - i) < length l)%nat) by lia. revert Hk.
  generalize (j - i)%nat as k. induction k as [|k IH]; intro Hk.
  - rewrite Nat.add_0_r. apply Qle_refl.
  - apply Qle_trans with (nth (i + k) l 0); [apply IH; lia|].
    replace (i + S k)%nat with (S (i + k)) by lia.
    apply nondecreasing_b_step; [exact H | lia].
Qed.

(** Claim C1 (amended): for a profile whose distances are non-decreasing,
    the segments returned by [cut_segment] are ordered by
    [start_distance].  They need not cover the rows [0 .. N-1] (a lead-in of
    at most 50 m is left out), and a filler shares its boundary rows with
    its neighbours: on [step_alt] the result spans the rows [0..4],
    [4..14] and [14..23]. *)
Theorem cut_segment_sorted_by_start :
  (forall alt dist coordinates smooth_window segs,
     (forall i j, (i <= j < length dist)%nat -> nth i dist 0 <= nth j dist 0) ->
     cut_segment alt dist coordinates smooth_window = Ok segs ->
     Sorted start_le segs) /\
  (exists segs, cut_segment step_alt step_dist PyNone 1 = Ok segs /\
     map (fun s => (seg_start_idx s, seg_end_idx s)) segs =
       [(0, 4); (4, 14); (14, 23)]%nat).
Proof.
  split; [|eexists; split; vm_compute; reflexivity].
  intros alt dist coordinates w segs Hd. unfold cut_segment.
  destruct (coordinate_columns coordinates (length alt)) as [la lo].
  cbv beta iota.
  destruct (make_frame alt dist la lo) as [df|e] eqn:Ef; cbn [bind]; [|discriminate].
  destruct (length df <? 2)%nat; [intro H; inversion H; constructor|].
  destruct (apply_smoothing (calculate_grades df) w) as [plot|e] eqn:Ep;
    cbn [bind]; [|discriminate].
  set (rows := add_columns df (calculate_grades df) plot).
  destruct (detect_descents descent_defaults rows coordinates) as [ds|e] eqn:Eds;
    cbn [bind]; [|discriminate].
  intro Hfill.
  destruct (make_frame_distance _ _ _ _ _ Ef) as [Hdist _].
  assert (Hrows : map distance rows = dist).
  { unfold rows. rewrite add_columns_distance; [exact Hdist | |].
    - apply length_calculate_grades.
    - rewrite (apply_smoothing_length _ _ _ Ep). apply length_calculate_grades. }
  pose proof (dist_sorted_of_map rows dist Hrows Hd) as Hsorted.
  destruct (sort_by_start_spec (detect_climbs climb_defaults rows ++ ds)) as [Hss Hin].
  apply StronglySorted_Sorted.
  apply (fill_gaps_sorted rows Hsorted _ _ Hss); [|exact Hfill].
  apply Forall_forall. intros x Hx. apply Hin in Hx. apply in_app_or in Hx.
  destruct Hx as [Hx|Hx].
  - exact (proj1 (Forall_forall _ _) (detect_climbs_cands climb_defaults rows) x Hx).
  - exact (proj1 (Forall_forall _ _) (detect_descents_cands _ _ _ _ Eds) x Hx).
Qed.

(** The step profile is sorted by distance, and its result by start. *)
Lemma cut_segment_sorted_by_start_witness :
  exists segs, cut_segment step_alt step_dist PyNone 1 = Ok segs /\ Sorted start_le segs.
Proof.
  eexists. split; [vm_compute; reflexivity|].
  apply (proj1 cut_segment_sorted_by_start step_alt step_dist PyNone 1%Z).
  - apply nondecreasing_b_spec. vm_compute. reflexivity.
  - vm_compute. reflexivity.
Defined.

(** * Further properties of the slicer *)

Ltac qcases :=
  repeat match goal with
  | |- context [qle ?a ?b] =>
      let E := fresh "E" in
      destruct (qle a b) eqn:E; [apply qle_spec in E | apply qle_false in E]
  | |- context [qlt ?a ?b] =>
      let E := fresh "E" in
      destruct (qlt a b) eqn:E; [apply qlt_spec in E | apply qlt_false in E]
  end.

(** ** The classifiers *)

(** [_classify_climb_strava] categorizes a climb exactly when its average
    slope is at least 3 % and its score [length * slope] is at least 8000;
    between two climbs of slope at least 3 %, the one with the larger score
    never gets the easier category. *)
Theorem classify_climb_strava_spec :
  (forall l s, classify_climb_strava l s <> "Uncategorized"%string <->
               3 <= s /\ 8000 <= l * s) /\
  (forall l s l' s', 3 <= s -> 3 <= s' -> l * s <= l' * s' ->
     (climb_rank (classify_climb_strava l s) <= climb_rank (classify_climb_strava l' s'))%nat).
Proof.
  split.
  - intros l s. unfold classify_climb_strava. cbv zeta.
    set (x := l * s). clearbody x. qcases;
      first [ split; [intros _; split; lra | intros _; discriminate]
            | split; [intro H; exfalso; apply H; reflexivity | intros [? ?]; lra] ].
  - intros l s l' s' Hs Hs' Hle. unfold classify_climb_strava. cbv zeta.
    set (x := l * s) in *. set (y := l' * s') in *. clearbody x y.
    qcases; first [lra | vm_compute; lia].
Qed.

(** [_classify_descent] likewise, with the threshold 8000 for a
    categorized descent and the categories from "Minor" to "Major". *)
Theorem classify_descent_spec :
  (forall l s, classify_descent l s <> "Uncategorized"%string <->
               3 <= s /\ 8000 <= l * s) /\
  (forall l s l' s', 3 <= s -> 3 <= s' -> l * s <= l' * s' ->
     (descent_rank (classify_descent l s) <= descent_rank (classify_descent l' s'))%nat).
Proof.
  split.
  - intros l s. unfold classify_descent. cbv zeta.
    set (x := l * s). clearbody x. qcases;
      first [ split; [intros _; split; lra | intros _; discriminate]
            | split; [intro H; exfalso; apply H; reflexivity | intros [? ?]; lra] ].
  - intros l s l' s' Hs Hs' Hle. unfold classify_descent. cbv zeta.
    set (x := l * s) in *. set (y := l' * s') in *. clearbody x y.
    qcases; first [lra | vm_compute; lia].
Qed.

Lemma classify_climb_strava_spec_witness :
  (climb_rank (classify_climb_strava 1000 10) <= climb_rank (classify_climb_strava 2000 10))%nat /\
  classify_climb_strava 2000 10 = "Cat 3"%string.
Proof.
  split; [|vm_compute; reflexivity].
  apply (proj2 classify_climb_strava_spec); lra.
Defined.

Lemma classify_descent_spec_witness :
  (descent_rank (classify_descent 1000 10) <= descent_rank (classify_descent 4000 10))%nat /\
  classify_descent 4000 10 = "Significant Descent"%string.
Proof.
  split; [|vm_compute; reflexivity].
  apply (proj2 classify_descent_spec); lra.
Defined.

(** ** The angle test *)

Lemma sq_nonneg (x : Q) : 0 <= x * x.
Proof.
  destruct x as [n d]. unfold Qle, Qmult. simpl. nia.
Qed.

Lemma sum_sq_zero (x y : Q) : x * x + y * y == 0 -> x == 0 /\ y == 0.
Proof.
  intro H. pose proof (sq_nonneg x). pose proof (sq_nonneg y).
  assert (Hx : x * x == 0) by lra. assert (Hy : y * y == 0) by lra.
  split; [destruct (Qmult_integral _ _ Hx) | destruct (Qmult_integral _ _ Hy)]; assumption.
Qed.

Lemma Qeq_bool_false x y : ~ x == y -> Qeq_bool x y = false.
Proof.
  intro H. destruct (Qeq_bool x y) eqn:E; [|reflexivity].
  apply Qeq_bool_iff in E. contradiction.
Qed.

(** [_calculate_angle] returns 0 when the middle point repeats one of its
    neighbours, so a repeated GPS sample is never a sharp turn.  The angle
    is the one at the middle point between the two neighbours: going back
    to the previous point (a hairpin) gives 0 degrees, not sharp, while
    going straight on through three evenly spaced collinear points gives
    180 degrees, which passes the [angle > 60] test. *)
Theorem calculate_angle_cases :
  (forall a c, calculate_angle (coord_pair a) (coord_pair a) (coord_pair c) = Ok AngleZero) /\
  (forall a c, calculate_angle (coord_pair a) (coord_pair c) (coord_pair c) = Ok AngleZero) /\
  (forall a b, ~ (fst a == fst b /\ snd a == snd b) ->
     exists ang, calculate_angle (coord_pair a) (coord_pair b) (coord_pair a) = Ok ang /\
                 angle_gt_60 ang = false) /\
  (forall x y dx dy, ~ (dx == 0 /\ dy == 0) ->
     exists ang, calculate_angle (coord_pair (x - dx, y - dy)) (coord_pair (x, y))
                                 (coord_pair (x + dx, y + dy)) = Ok ang /\
                 angle_gt_60 ang = true).
Proof.
  split; [|split; [|split]].
  - intros [ax ay] c. unfold calculate_angle, coord_pair. simpl.
    replace (Qeq_bool ((ax - ax) * (ax - ax) + (ay - ay) * (ay - ay)) 0) with true
      by (symmetry; apply Qeq_bool_iff; ring).
    reflexivity.
  - intros a [cx cy]. unfold calculate_angle, coord_pair. simpl.
    replace (Qeq_bool ((cx - cx) * (cx - cx) + (cy - cy) * (cy - cy)) 0) with true
      by (symmetry; apply Qeq_bool_iff; ring).
    rewrite orb_true_r. reflexivity.
  - intros [ax ay] [bx by0] Hne. cbn [fst snd] in Hne.
    unfold calculate_angle, coord_pair. simpl.
    set (d := (ax - bx) * (ax - bx) + (ay - by0) * (ay - by0)).
    assert (Hd : ~ d == 0).
    { intro H. apply sum_sq_zero in H. apply Hne. split; lra. }
    rewrite (Qeq_bool_false _ _ Hd). simpl.
    eexists. split; [reflexivity|]. simpl.
    assert (H0 : 0 <= d) by (unfold d; pose proof (sq_nonneg (ax - bx));
                             pose proof (sq_nonneg (ay - by0)); lra).
    pose proof (sq_nonneg d).
    apply orb_false_iff. split; apply qlt_false; [exact H0|].
    set (dd := d * d) in *. lra.
  - intros x y dx dy Hne. unfold calculate_angle, coord_pair. simpl.
    assert (Hs : 0 < dx * dx + dy * dy).
    { pose proof (sq_nonneg dx). pose proof (sq_nonneg dy).
      destruct (Qle_lt_or_eq 0 (dx * dx + dy * dy)) as [Hlt|Heq]; [lra|exact Hlt|].
      exfalso. apply Hne. apply sum_sq_zero. symmetry. exact Heq. }
    rewrite (Qeq_bool_false ((x - dx - x) * (x - dx - x) + (y - dy - y) * (y - dy - y)) 0)
      by (intro H; ring_simplify in H; lra).
    rewrite (Qeq_bool_false ((x + dx - x) * (x + dx - x) + (y + dy - y) * (y + dy - y)) 0)
      by (intro H; ring_simplify in H; lra).
    eexists. split; [reflexivity|]. simpl.
    replace (qlt ((x - dx - x) * (x + dx - x) + (y - dy - y) * (y + dy - y)) 0) with true;
      [reflexivity|].
    symmetry. apply qlt_spec.
    setoid_replace ((x - dx - x) * (x + dx - x) + (y - dy - y) * (y + dy - y))
      with (- (dx * dx + dy * dy)) by ring.
    lra.
Qed.

Lemma calculate_angle_cases_witness :
  (exists ang, calculate_angle (coord_pair (0, 0)) (coord_pair (1, 0)) (coord_pair (0, 0)) = Ok ang /\
               angle_gt_60 ang = false) /\
  (exists ang, calculate_angle (coord_pair (0 - 1, 0 - 0)) (coord_pair (0, 0))
                               (coord_pair (0 + 1, 0 + 0)) = Ok ang /\
               angle_gt_60 ang = true).
Proof.
  split.
  - apply (proj1 (proj2 (proj2 calculate_angle_cases)) (0, 0) (1, 0)).
    cbn [fst snd]. intros [H _]. discriminate.
  - apply (proj2 (proj2 (proj2 calculate_angle_cases)) 0 0 1 0).
    intros [H _]. discriminate.
Defined.

(** ** The bounds of the sharp-turn count *)

Lemma foldM_le (f : nat -> nat -> result nat) l a b :
  (forall a i b, In i l -> f a i = Ok b -> (b <= S a)%nat /\ (a <= b)%nat) ->
  foldM f l a = Ok b -> (a <= b <= a + length l)%nat.
Proof.
  revert a; induction l as [|i t IH]; intros a Hf; simpl.
  - intro H; inversion H; lia.
  - destruct (f a i) as [a'|e] eqn:E; cbn [bind]; [|discriminate].
    intro H. destruct (Hf a i a' (or_introl eq_refl) E) as [H1 H2].
    assert (Ht : (a' <= b <= a' + length t)%nat)
      by (apply IH; [intros a0 j b0 Hj; apply Hf; right; exact Hj | exact H]).
    lia.
Qed.

(** [_count_sharp_turns] returns 0 without looking at the coordinates when
    they are falsy ([None] or empty) or the segment has fewer than 3 rows,
    and returns 0 when the coordinate list is shorter than the segment; in
    any case the count is at most the number [len(segment) - 2] of
    interior points. *)
Theorem count_sharp_turns_bounds :
  (forall seg c, py_truthy c = false -> count_sharp_turns seg c = Ok 0%nat) /\
  (forall seg c, (length seg < 3)%nat -> count_sharp_turns seg c = Ok 0%nat) /\
  (forall seg l, (length l < length seg)%nat -> count_sharp_turns seg (PyList l) = Ok 0%nat) /\
  (forall seg c n, count_sharp_turns seg c = Ok n -> (n <= length seg - 2)%nat).
Proof.
  split; [|split; [|split]].
  - intros seg c H. unfold count_sharp_turns. rewrite H. reflexivity.
  - intros seg c H. unfold count_sharp_turns.
    replace (length seg <? 3)%nat with true by (symmetry; apply Nat.ltb_lt; exact H).
    rewrite orb_true_r. reflexivity.
  - intros seg l H. unfold count_sharp_turns.
    destruct (negb _ || _)%bool; [reflexivity|].
    cbn [py_len bind].
    replace (length l <=? length seg - 1)%nat with true
      by (symmetry; apply Nat.leb_le; lia).
    reflexivity.
  - intros seg c n. unfold count_sharp_turns.
    destruct (negb (py_truthy c) || (length seg <? 3))%bool eqn:E0;
      [intro H; inversion H; lia|].
    apply orb_false_iff in E0. destruct E0 as [_ E0]. apply Nat.ltb_ge in E0.
    destruct (py_len c) as [m|e] eqn:Em; cbn [bind]; [|discriminate].
    destruct ((m <=? length seg - 1) || (m <=? 0))%bool eqn:E1;
      [intro H; inversion H; lia|].
    apply orb_false_iff in E1. destruct E1 as [E1 _]. apply Nat.leb_gt in E1.
    destruct c as [| |l]; try discriminate. cbn [py_len] in Em. inversion Em; subst m.
    cbn [py_slice bind skipn].
    intro H. apply foldM_le in H.
    + rewrite length_seq, length_firstn in H. lia.
    + intros a i b _ Hs.
      destruct (calculate_angle _ _ _); cbn [bind] in Hs; [|discriminate].
      destruct (_ <? _)%nat; [destruct (_ && _)%bool|]; inversion Hs; lia.
Qed.

Lemma count_sharp_turns_bounds_witness :
  exists n, count_sharp_turns turn_rows (PyList (map coord_pair turn_coords)) = Ok n /\
            (n <= length turn_rows - 2)%nat.
Proof.
  eexists. split; [vm_compute; reflexivity|].
  apply (proj2 (proj2 (proj2 count_sharp_turns_bounds))
           turn_rows (PyList (map coord_pair turn_coords))).
  vm_compute. reflexivity.
Defined.

(** ** The smoother *)

Lemma in_slice {A} (l : list A) a b x : In x (slice l a b) -> In x l.
Proof.
  unfold slice. intro H.
  assert (H1 : In x (skipn a l)).
  { rewrite <- (firstn_skipn (S b - a) (skipn a l)). apply in_or_app. left. exact H. }
  rewrite <- (firstn_skipn a l). apply in_or_app. right. exact H1.
Qed.

Lemma inject_Z_succ (n : nat) : inject_Z (Z.of_nat (S n)) == inject_Z (Z.of_nat n) + 1.
Proof. rewrite Nat2Z.inj_succ, <- Z.add_1_r, inject_Z_plus. reflexivity. Qed.

Lemma sum_bounds (xs : list Q) lo hi :
  (forall x, In x xs -> lo <= x <= hi) ->
  lo * inject_Z (Z.of_nat (length xs)) <= sum xs <= hi * inject_Z (Z.of_nat (length xs)).
Proof.
  induction xs as [|x t IH]; intro H; cbn [length sum].
  - change (inject_Z (Z.of_nat 0)) with 0. rewrite !Qmult_0_r. split; apply Qle_refl.
  - rewrite inject_Z_succ.
    destruct (H x (or_introl eq_refl)) as [H1 H2].
    destruct IH as [H3 H4]; [intros y Hy; apply H; right; exact Hy|].
    split; [setoid_replace (lo * (inject_Z (Z.of_nat (length t)) + 1))
              with (lo * inject_Z (Z.of_nat (length t)) + lo) by ring
           | setoid_replace (hi * (inject_Z (Z.of_nat (length t)) + 1))
              with (hi * inject_Z (Z.of_nat (length t)) + hi) by ring]; lra.
Qed.

Lemma mean_bounds (xs : list Q) lo hi m :
  (forall x, In x xs -> lo <= x <= hi) -> mean xs = Some m -> lo <= m <= hi.
Proof.
  intros H Hm. destruct xs as [|x t]; [discriminate|].
  change (Some (Qred (sum (x :: t) / inject_Z (Z.of_nat (length (x :: t))))) = Some m) in Hm.
  injection Hm as <-.
  setoid_replace (Qred (sum (x :: t) / inject_Z (Z.of_nat (length (x :: t)))))
    with (sum (x :: t) / inject_Z (Z.of_nat (length (x :: t)))) by apply Qred_correct.
  pose proof (sum_bounds _ lo hi H) as [H1 H2].
  set (n := inject_Z (Z.of_nat (length (x :: t)))) in *.
  assert (Hn : 0 < n).
  { unfold n. change (length (x :: t)) with (S (length t)).
    rewrite inject_Z_succ. pose proof (Zle_0_nat (length t)).
    assert (0 <= inject_Z (Z.of_nat (length t)))
      by (change 0 with (inject_Z 0); rewrite <- Zle_Qle; lia).
    lra. }
  split.
  - apply Qle_shift_div_l; [exact Hn | exact H1].
  - apply Qle_shift_div_r; [exact Hn | exact H2].
Qed.

Lemma rolling_window_nonempty {A} w (xs : list A) k :
  (k < length xs)%nat -> (1 <= length (rolling_window w xs k))%nat.
Proof.
  intro Hk. unfold rolling_window. rewrite length_slice by lia. lia.
Qed.

Lemma nth_map_seq0 (F : nat -> Q) n k :
  (k < n)%nat -> nth k (map F (seq 0 n)) 0 = F k.
Proof.
  intro Hk. rewrite (nth_indep _ 0 (F 0%nat)) by (rewrite length_map, length_seq; exact Hk).
  rewrite map_nth, seq_nth by exact Hk. reflexivity.
Qed.

Lemma smoothing_window_neg w n : (w < 0)%Z -> (smoothing_window w n < 0)%Z.
Proof.
  intro Hw. unfold smoothing_window.
  rewrite Z.min_l by lia.
  destruct (Z.even w) eqn:E; [|exact Hw].
  destruct (Z.eq_dec w (-1)) as [->|Hne]; [discriminate|]. lia.
Qed.

(** [_apply_smoothing] raises [ValueError] for a negative window (pandas
    refuses a negative rolling window); otherwise the smoothed series has
    one value per grade and every smoothed value lies within the bounds of
    the raw grades, as a centered mean of a non-empty window of them. *)
Theorem apply_smoothing_range :
  (forall g w, (w < 0)%Z -> apply_smoothing g w = Raise ValueError) /\
  (forall g w pg lo hi, (forall x, In x g -> lo <= x <= hi) ->
     apply_smoothing g w = Ok pg ->
     length pg = length g /\ forall p, In p pg -> lo <= p <= hi).
Proof.
  split.
  - intros g w Hw. unfold apply_smoothing.
    replace (smoothing_window w (length g) <? 0)%Z with true
      by (symmetry; apply Z.ltb_lt; apply smoothing_window_neg; exact Hw).
    reflexivity.
  - intros g w pg lo hi Hg Hs. split; [exact (apply_smoothing_length _ _ _ Hs)|].
    unfold apply_smoothing in Hs. destruct (_ <? 0)%Z; [discriminate|].
    inversion Hs; subst pg; clear Hs.
    intros p Hp. apply in_map_iff in Hp. destruct Hp as [o [Ho Hin]].
    unfold rolling_mean in Hin. apply in_map_iff in Hin. destruct Hin as [k [Hk Hks]].
    apply in_seq in Hks.
    pose proof (rolling_window_nonempty
                  (Z.to_nat (smoothing_window w (length g))) g k ltac:(lia)) as Hne.
    replace (length _ <? 1)%nat with false in Hk by (symmetry; apply Nat.ltb_ge; exact Hne).
    destruct (rolling_window (Z.to_nat (smoothing_window w (length g))) g k) as [|x t] eqn:Ew;
      [simpl in Hne; lia|].
    subst o. unfold mean in *. cbv beta iota in Ho. rewrite <- Ho.
    apply (mean_bounds (x :: t) lo hi); [|reflexivity].
    intros y Hy. apply Hg. rewrite <- Ew in Hy. unfold rolling_window in Hy.
    exact (in_slice _ _ _ _ Hy).
Qed.

Lemma apply_smoothing_range_witness :
  exists pg, apply_smoothing [0; 4; 8; 2] 3%Z = Ok pg /\ length pg = 4%nat /\
    forall p, In p pg -> 0 <= p <= 8.
Proof.
  eexists. split; [vm_compute; reflexivity|].
  apply (proj2 apply_smoothing_range [0; 4; 8; 2] 3%Z); [|vm_compute; reflexivity].
  intros x Hx. simpl in Hx.
  destruct Hx as [<-|[<-|[<-|[<-|[]]]]]; split; vm_compute; discriminate.
Defined.

(** With a window of 0 or 1 the effective window is 1 and
    [_apply_smoothing] leaves every grade unchanged. *)
Theorem apply_smoothing_unit_window g w :
  (w = 0 \/ w = 1)%Z ->
  exists pg, apply_smoothing g w = Ok pg /\ length pg = length g /\
    forall k, (k < length g)%nat -> nth k pg 0 == nth k g 0.
Proof.
  intro Hw.
  assert (Hws : smoothing_window w (length g) = 1%Z).
  { unfold smoothing_window. destruct Hw as [->| ->].
    - rewrite Z.min_l by lia. reflexivity.
    - destruct (length g) as [|n]; [reflexivity|].
      rewrite Z.min_l by lia. reflexivity. }
  unfold apply_smoothing. rewrite Hws. cbn [Z.ltb Z.compare Z.to_nat Pos.to_nat].
  eexists. split; [reflexivity|]. split.
  - unfold rolling_mean. rewrite !length_map, length_seq. reflexivity.
  - intros k Hk. unfold rolling_mean.
    rewrite map_map.
    rewrite nth_map_seq0 by exact Hk. cbv beta zeta.
    unfold rolling_window. change (1 / 2)%nat with 0%nat.
    rewrite Nat.sub_0_r, Nat.add_0_r, Nat.min_r by lia.
    unfold slice. replace (S k - k)%nat with 1%nat by lia.
    rewrite (skipn_nth_cons g k 0) by exact Hk.
    cbn [firstn length Nat.ltb Nat.leb]. unfold mean. cbv beta iota.
    match goal with |- Qred ?e == _ => rewrite (Qred_correct e) end.
    cbn [sum length]. change (inject_Z (Z.of_nat 1)) with 1. field.
Qed.

Lemma apply_smoothing_unit_window_witness :
  exists pg, apply_smoothing [0; 4; 8; 2] 1%Z = Ok pg /\ length pg = 4%nat /\
    forall k, (k < 4)%nat -> nth k pg 0 == nth k [0; 4; 8; 2] 0.
Proof.
  apply (apply_smoothing_unit_window [0; 4; 8; 2] 1%Z). right. reflexivity.
Defined.

(** ** The inputs of [cut_segment] *)

Lemma coord_column_pairs cs :
  coord_column (PyList (map coord_pair cs)) 0 = Ok (map fst cs) /\
  coord_column (PyList (map coord_pair cs)) 1 = Ok (map snd cs).
Proof.
  unfold coord_column. cbn [py_iter bind].
  induction cs as [|[x y] t [IH0 IH1]]; [split; reflexivity|].
  cbn [map mapM]. unfold coord_pair at 1. cbn [py_getitem nth_error py_float bind fst snd].
  rewrite IH0, IH1. split; reflexivity.
Qed.

Lemma coordinate_columns_pairs cs n :
  coordinate_columns (PyList (map coord_pair cs)) n = (map fst cs, map snd cs).
Proof.
  unfold coordinate_columns. destruct (coord_column_pairs cs) as [H0 H1].
  rewrite H0, H1. reflexivity.
Qed.

(** [cut_segment] raises [ValueError] when the altitude and distance
    profiles differ in length, and when well-formed coordinates do not have
    one pair per sample (the [DataFrame] columns must have one length); a
    profile of fewer than 2 samples gives no segment. *)
Theorem cut_segment_input_errors :
  (forall alt dist c w, length alt <> length dist ->
     cut_segment alt dist c w = Raise ValueError) /\
  (forall alt dist cs w, length cs <> length alt ->
     cut_segment alt dist (PyList (map coord_pair cs)) w = Raise ValueError) /\
  (forall alt dist w, length alt = length dist -> (length alt < 2)%nat ->
     cut_segment alt dist PyNone w = Ok []).
Proof.
  split; [|split].
  - intros alt dist c w H. unfold cut_segment.
    destruct (coordinate_columns c (length alt)) as [la lo]. cbv beta iota.
    unfold make_frame. apply Nat.eqb_neq in H. rewrite H. reflexivity.
  - intros alt dist cs w H. unfold cut_segment.
    rewrite coordinate_columns_pairs. cbv beta iota.
    unfold make_frame.
    replace (Nat.eqb (length alt) (length (map fst cs))) with false
      by (symmetry; apply Nat.eqb_neq; rewrite length_map; lia).
    rewrite andb_false_r. reflexivity.
  - intros alt dist w H1 H2. unfold cut_segment. cbn [coordinate_columns].
    cbv beta iota. unfold make_frame. rewrite !repeat_length.
    rewrite H1, Nat.eqb_refl. cbn [andb bind].
    rewrite length_zip_with, !length_zip_pair, repeat_length.
    match goal with |- context [(?m <? 2)%nat] =>
      replace (m <? 2)%nat with true by (symmetry; apply Nat.ltb_lt; lia) end.
    reflexivity.
Qed.

Lemma cut_segment_input_errors_witness :
  cut_segment rise_alt rise_dist (PyList (map coord_pair turn_coords)) 10%Z = Raise ValueError /\
  cut_segment [5] [0] PyNone 10%Z = Ok [].
Proof.
  split.
  - apply (proj1 (proj2 cut_segment_input_errors)). vm_compute. discriminate.
  - apply (proj2 (proj2 cut_segment_input_errors)); vm_compute; [reflexivity | lia].
Defined.

(** ** The records of the detectors *)

Section ClimbFound.
Variables (P : detector_params) (df : list row) (R : segment -> Prop).
Hypothesis HR : forall l a b, (a <= b)%nat -> (b < length df)%nat -> Forall R l ->
  Forall R (validate_and_append_climb l (slice df a b) a (min_length_m P) (min_change_m P)).

Lemma climb_step_found n s :
  climb_inv P df n s -> (S n < length df)%nat -> Forall R (found s) ->
  Forall R (found (climb_step P df s (S n))).
Proof.
  intros Hinv Hlen Hf. unfold climb_inv in Hinv. unfold climb_step.
  replace (S n - 1)%nat with n by lia. cbv zeta.
  destruct (state s) eqn:Est; try exact Hf.
  - destruct (qle _ _); exact Hf.
  - destruct (qle _ _); exact Hf.
  - destruct Hinv as [H1 [H2 [H3 H4]]].
    destruct (qle _ _); [exact Hf|].
    destruct (_ || _)%bool; [|exact Hf]. cbn [found].
    rewrite H3, <- slice_extend by lia. rewrite py_slice_neg_slice by lia.
    apply HR; [lia | lia | exact Hf].
Qed.

Lemma climb_run_found n :
  (n < length df)%nat -> Forall R (found (climb_run P df n)).
Proof.
  induction n as [|n IH]; intro H.
  - constructor.
  - rewrite climb_run_S. apply climb_step_found; [apply climb_run_inv; lia | exact H |].
    apply IH. lia.
Qed.

Lemma detect_climbs_found : Forall R (detect_climbs P df).
Proof.
  unfold detect_climbs.
  assert (Hc : length df = 0%nat \/ exists m, length df = S m)
    by (destruct (length df); eauto).
  destruct Hc as [Hlen|[m Hlen]]; rewrite Hlen.
  - simpl. constructor.
  - replace (S m - 1)%nat with m by lia.
    assert (Hm : (m < length df)%nat) by lia.
    pose proof (climb_run_inv P df m Hm) as Hinv.
    pose proof (climb_run_found m Hm) as Hf.
    unfold climb_inv in Hinv.
    destruct (state (climb_run P df m)); destruct (segment_points (climb_run P df m)) eqn:Ep;
      try exact Hf.
    + destruct Hinv as [H1 H2]. rewrite H2. apply HR; [lia | lia | exact Hf].
    + destruct Hinv as [H1 [H2 [H3 H4]]]. rewrite H3. apply HR; [lia | lia | exact Hf].
Qed.
End ClimbFound.

Section DescentFound.
Variables (P : detector_params) (df : list row) (c : pyval) (R : segment -> Prop).
Hypothesis HR : forall l a b l', (a <= b)%nat -> (b < length df)%nat -> Forall R l ->
  validate_and_append_descent l (slice df a b) a (min_length_m P) (min_change_m P) c = Ok l' ->
  Forall R l'.

Lemma descent_step_found n s s' :
  descent_inv P df n s -> (S n < length df)%nat -> Forall R (found s) ->
  descent_step P df c s (S n) = Ok s' -> Forall R (found s').
Proof.
  intros Hinv Hlen Hf. unfold descent_inv in Hinv. unfold descent_step.
  replace (S n - 1)%nat with n by lia. cbv zeta.
  destruct (state s) eqn:Est;
    try (destruct (qle _ _); intro H; inversion H; subst; exact Hf);
    try (intro H; inversion H; subst; exact Hf).
  destruct Hinv as [H1 [H2 [H3 H4]]].
  destruct (qle _ _); [intro H; inversion H; subst; exact Hf|].
  destruct (_ || _)%bool; [|intro H; inversion H; subst; exact Hf].
  rewrite H3, <- slice_extend by lia. rewrite py_slice_neg_slice by lia.
  destruct (validate_and_append_descent _ _ _ _ _ _) as [ds|e] eqn:Hv;
    cbn [bind]; intro H; inversion H; subst; clear H. cbn [found].
  refine (HR _ _ _ _ _ _ Hf Hv); lia.
Qed.

Lemma descent_run_found n s :
  (n < length df)%nat -> descent_run P df c n = Ok s -> Forall R (found s).
Proof.
  revert s; induction n as [|n IH]; intros s H Hr.
  - inversion Hr; subst. constructor.
  - rewrite descent_run_S in Hr.
    destruct (descent_run P df c n) as [s0|e] eqn:E0; [|discriminate].
    simpl in Hr. destruct (descent_run_inv P df c n s0 ltac:(lia) E0) as [Hi _].
    exact (descent_step_found n s0 s Hi H (IH s0 ltac:(lia) eq_refl) Hr).
Qed.

Lemma detect_descents_found ds :
  detect_descents P df c = Ok ds -> Forall R ds.
Proof.
  unfold detect_descents.
  assert (Hc : length df = 0%nat \/ exists m, length df = S m)
    by (destruct (length df); eauto).
  destruct Hc as [Hlen|[m Hlen]]; rewrite Hlen.
  - simpl. intro H. inversion H. constructor.
  - replace (S m - 1)%nat with m by lia.
    destruct (descent_run P df c m) as [s|e] eqn:Er; [|discriminate]. cbn [bind].
    destruct (descent_run_inv P df c m s ltac:(lia) Er) as [Hinv _].
    pose proof (descent_run_found m s ltac:(lia) Er) as Hf.
    unfold descent_inv in Hinv.
    destruct (state s); destruct (segment_points s) eqn:Ep;
      try (intro H; inversion H; subst; exact Hf).
    + destruct Hinv as [H1 H2]. rewrite H2. intro Hv.
      refine (HR _ _ _ _ _ _ Hf Hv); lia.
    + destruct Hinv as [H1 [H2 [H3 H4]]]. rewrite H3. intro Hv.
      refine (HR _ _ _ _ _ _ Hf Hv); lia.
Qed.
End DescentFound.

Lemma validate_climb_valid P df l a b :
  (a <= b)%nat -> (b < length df)%nat -> Forall (climb_record_valid P df) l ->
  Forall (climb_record_valid P df)
    (validate_and_append_climb l (slice df a b) a (min_length_m P) (min_change_m P)).
Proof.
  intros Hab Hb Hl. unfold validate_and_append_climb.
  rewrite (length_slice df a b Hb).
  destruct (S b - a <? 2)%nat eqn:E2; [exact Hl|]. apply Nat.ltb_ge in E2.
  destruct (qlt (seg_length (slice df a b)) (min_length_m P)
            || qlt (climb_gain (slice df a b)) (min_change_m P))%bool eqn:Et; [exact Hl|].
  apply orb_false_iff in Et. destruct Et as [El Eg].
  apply qlt_false in El. apply qlt_false in Eg.
  apply Forall_app. split; [exact Hl|]. constructor; [|constructor].
  cbv zeta.
  set (cat := classify_climb_strava _ _).
  split; [exact El|]. split; [exact Eg|]. split.
  - cbn [seg_type category].
    destruct (String.eqb cat "Uncategorized") eqn:Ec.
    + right. apply String.eqb_eq in Ec. split; [reflexivity | exact Ec].
    + left. apply String.eqb_neq in Ec. split; [reflexivity | exact Ec].
  - split; [eexists; split; reflexivity|].
    cbn [seg_start_idx seg_end_idx start_distance end_distance seg_distance].
    replace (a + (S b - a) - 1)%nat with b by lia.
    split; [lia|].
    rewrite first_row_slice, last_row_slice by lia.
    split; [reflexivity|]. split; [reflexivity|].
    unfold seg_length. rewrite first_row_slice, last_row_slice by lia. reflexivity.
Qed.

Lemma validate_descent_valid P df c l a b l' :
  (a <= b)%nat -> (b < length df)%nat -> Forall (descent_record_valid P df) l ->
  validate_and_append_descent l (slice df a b) a (min_length_m P) (min_change_m P) c = Ok l' ->
  Forall (descent_record_valid P df) l'.
Proof.
  intros Hab Hb Hl. unfold validate_and_append_descent.
  rewrite (length_slice df a b Hb).
  destruct (S b - a <? 2)%nat eqn:E2; [intro H; inversion H; subst; exact Hl|].
  apply Nat.ltb_ge in E2. remember (S b - a)%nat as n eqn:Hn.
  destruct (qlt (seg_length (slice df a b)) (min_length_m P)
            || qlt (descent_loss (slice df a b)) (min_change_m P))%bool eqn:Et;
    [intro H; inversion H; subst; exact Hl|].
  apply orb_false_iff in Et. destruct Et as [El Eg].
  apply qlt_false in El. apply qlt_false in Eg.
  cbv zeta.
  set (cat := classify_descent _ _).
  destruct (String.eqb cat "Uncategorized") eqn:Ec.
  - cbn [String.eqb andb bind]. change (String.eqb "downhill" "descent") with false.
    cbn [andb bind]. intro H; injection H as <-.
    apply Forall_app. split; [exact Hl|]. constructor; [|constructor].
    apply String.eqb_eq in Ec.
    split; [exact El|]. split; [exact Eg|].
    split; [right; split; [reflexivity | exact Ec]|].
    split; [eexists; split; reflexivity|].
    split; [intros _; reflexivity|]. split; [discriminate|].
    cbn [seg_start_idx seg_end_idx start_distance end_distance seg_distance].
    replace (a + n - 1)%nat with b by lia.
    split; [lia|].
    rewrite first_row_slice, last_row_slice by lia.
    split; [reflexivity|]. split; [reflexivity|].
    unfold seg_length. rewrite first_row_slice, last_row_slice by lia. reflexivity.
  - change (String.eqb "descent" "descent") with true. cbn [andb].
    destruct (if py_truthy c then count_sharp_turns (slice df a b) c else Ok 0%nat)
      as [k|e]; cbn [bind]; [|discriminate].
    intro H; injection H as <-.
    apply Forall_app. split; [exact Hl|]. constructor; [|constructor].
    apply String.eqb_neq in Ec.
    split; [exact El|]. split; [exact Eg|].
    split; [left; split; [reflexivity | exact Ec]|].
    split; [eexists; split; reflexivity|].
    split; [cbn [seg_type]; discriminate|]. split; [discriminate|].
    cbn [seg_start_idx seg_end_idx start_distance end_distance seg_distance].
    replace (a + n - 1)%nat with b by lia.
    split; [lia|].
    rewrite first_row_slice, last_row_slice by lia.
    split; [reflexivity|]. split; [reflexivity|].
    unfold seg_length. rewrite first_row_slice, last_row_slice by lia. reflexivity.
Qed.

(** Every record emitted by [_detect_climbs] meets the length and gain
    thresholds, is a "climb" when categorized and an "uphill" otherwise,
    carries the category of its length and grade, and spans at least two
    rows of the frame, its start and end distances being the distances of
    its [start_idx] and [end_idx] rows and its distance their difference.
    Likewise for [_detect_descents], whose uncategorized "downhill" records
    carry 0 sharp turns. *)
Theorem detector_records_valid :
  (forall P df, Forall (climb_record_valid P df) (detect_climbs P df)) /\
  (forall P df c ds, detect_descents P df c = Ok ds -> Forall (descent_record_valid P df) ds).
Proof.
  split.
  - intros P df. apply detect_climbs_found. intros l a b Hab Hb Hl.
    apply validate_climb_valid; assumption.
  - intros P df c ds. apply detect_descents_found. intros l a b l' Hab Hb Hl Hv.
    exact (validate_descent_valid P df c l a b l' Hab Hb Hl Hv).
Qed.

Lemma detector_records_valid_witness :
  exists ds, detect_descents descent_defaults (profile_rows drop_alt rise_dist 10) PyNone = Ok ds /\
    Forall (descent_record_valid descent_defaults (profile_rows drop_alt rise_dist 10)) ds.
Proof.
  eexists. split; [vm_compute; reflexivity|].
  apply (proj2 detector_records_valid descent_defaults
           (profile_rows drop_alt rise_dist 10) PyNone).
  vm_compute. reflexivity.
Defined.

(** ** The flat segments and the gap filler *)

Lemma create_flat_segment_in_range df a b g :
  (a < length df)%nat -> (b < length df)%nat -> exists s, create_flat_segment df a b g = Ok s.
Proof.
  intros Ha Hb. unfold create_flat_segment, iloc.
  destruct (nth_error df a) eqn:E1; [|apply nth_error_None in E1; lia].
  destruct (nth_error df b) eqn:E2; [|apply nth_error_None in E2; lia].
  cbn [bind]. eauto.
Qed.

Lemma max0_split x :
  0 <= max0 x /\ 0 <= max0 (- x) /\ max0 x - max0 (- x) == x /\
  (max0 x = 0 \/ max0 (- x) = 0).
Proof.
  unfold max0.
  destruct (qlt 0 x) eqn:E1; destruct (qlt 0 (- x)) eqn:E2;
    [apply qlt_spec in E1 | apply qlt_spec in E1 | apply qlt_false in E1 | apply qlt_false in E1];
    [apply qlt_spec in E2 | apply qlt_false in E2 | apply qlt_spec in E2 | apply qlt_false in E2].
  - lra.
  - split; [lra|]. split; [lra|]. split; [lra|]. right; reflexivity.
  - split; [lra|]. split; [lra|]. split; [lra|]. left; reflexivity.
  - split; [lra|]. split; [lra|]. split; [lra|]. left; reflexivity.
Qed.

(** [_create_flat_segment] raises [IndexError] exactly when one of its two
    indices is not a row of the frame, and succeeds otherwise.  Its record
    spans the distances and altitudes of those two rows, its distance and
    elevation change are their differences, and the change is split into a
    non-negative gain and a non-negative loss, at most one of them non-zero,
    whose difference is the change. *)
Theorem create_flat_segment_fields df a b g :
  (create_flat_segment df a b g = Raise IndexError <-> (length df <= a \/ length df <= b)%nat) /\
  ((a < length df)%nat -> (b < length df)%nat -> exists s, create_flat_segment df a b g = Ok s) /\
  (forall s, create_flat_segment df a b g = Ok s ->
     start_distance s = distance (nth a df dummy_row) /\
     end_distance s = distance (nth b df dummy_row) /\
     start_altitude s = ele (nth a df dummy_row) /\
     end_altitude s = ele (nth b df dummy_row) /\
     seg_distance s = end_distance s - start_distance s /\
     elevation_change s = end_altitude s - start_altitude s /\
     0 <= elevation_gain s /\ 0 <= elevation_loss s /\
     elevation_gain s - elevation_loss s == elevation_change s /\
     (elevation_gain s = 0 \/ elevation_loss s = 0)).
Proof.
  split; [|split].
  - unfold create_flat_segment, iloc. split.
    + destruct (nth_error df a) eqn:E1; [|apply nth_error_None in E1; left; exact E1].
      destruct (nth_error df b) eqn:E2; [|apply nth_error_None in E2; right; exact E2].
      cbn [bind]. discriminate.
    + intros [H|H].
      * apply nth_error_None in H. rewrite H. reflexivity.
      * apply nth_error_None in H. rewrite H.
        destruct (nth_error df a); reflexivity.
  - apply create_flat_segment_in_range.
  - intros s. unfold create_flat_segment, iloc.
    destruct (nth_error df a) as [r1|] eqn:E1; cbn [bind]; [|discriminate].
    destruct (nth_error df b) as [r2|] eqn:E2; cbn [bind]; [|discriminate].
    intro H; injection H as <-.
    cbn [start_distance end_distance start_altitude end_altitude seg_distance
         elevation_change elevation_gain elevation_loss].
    rewrite (nth_error_nth df a dummy_row E1), (nth_error_nth df b dummy_row E2).
    destruct (max0_split (ele r2 - ele r1)) as [K1 [K2 [K3 K4]]].
    repeat (split; [reflexivity|]).
    split; [exact K1|]. split; [exact K2|]. split; [exact K3|exact K4].
Qed.

Lemma create_flat_segment_fields_witness :
  create_flat_segment (profile_rows rise_alt rise_dist 10) 3 11 None = Raise IndexError /\
  exists s, create_flat_segment (profile_rows rise_alt rise_dist 10) 3 7 None = Ok s /\
    elevation_gain s - elevation_loss s == elevation_change s.
Proof.
  split.
  - apply (proj2 (proj1 (create_flat_segment_fields _ 3 11 None))). vm_compute. right; lia.
  - destruct (proj1 (proj2 (create_flat_segment_fields (profile_rows rise_alt rise_dist 10) 3 7 None)))
      as [s Hs]; [vm_compute; lia | vm_compute; lia |].
    exists s. split; [exact Hs|].
    destruct (proj2 (proj2 (create_flat_segment_fields _ 3 7 None)) s Hs)
      as (_ & _ & _ & _ & _ & _ & _ & _ & K & _).
    exact K.
Defined.

Lemma index_where_in p df k :
  (k < length df)%nat -> p (nth k df dummy_row) = true -> In k (index_where p df).
Proof.
  intros Hk Hp. unfold index_where. apply filter_In. split; [apply in_seq; lia | exact Hp].
Qed.

Lemma index_where_bound p df k : In k (index_where p df) -> (k < length df)%nat.
Proof.
  unfold index_where. intro H. apply filter_In in H. destruct H as [H _].
  apply in_seq in H. lia.
Qed.

Lemma index_first_exists p df k :
  (k < length df)%nat -> p (nth k df dummy_row) = true ->
  exists a, index_first (index_where p df) = Ok a /\ (a < length df)%nat.
Proof.
  intros Hk Hp. pose proof (index_where_in p df k Hk Hp) as Hin.
  pose proof (index_where_bound p df) as Hb.
  unfold index_first. destruct (index_where p df) as [|a t]; [destruct Hin|].
  exists a. split; [reflexivity|]. apply Hb. left. reflexivity.
Qed.

Lemma index_last_exists p df k :
  (k < length df)%nat -> p (nth k df dummy_row) = true ->
  exists b, index_last (index_where p df) = Ok b /\ (b < length df)%nat.
Proof.
  intros Hk Hp. pose proof (index_where_in p df k Hk Hp) as Hin.
  pose proof (index_where_bound p df) as Hb.
  unfold index_last. destruct (rev (index_where p df)) as [|b t] eqn:E.
  - apply (f_equal (@rev nat)) in E. rewrite rev_involutive in E. rewrite E in Hin. destruct Hin.
  - exists b. split; [reflexivity|]. apply Hb. apply in_rev. rewrite E. left. reflexivity.
Qed.

Lemma fill_gaps_ok df segs :
  (1 <= length df)%nat ->
  Forall (fun s => exists a, (a < length df)%nat /\
                             start_distance s = distance (nth a df dummy_row)) segs ->
  exists out, fill_gaps df segs = Ok out.
Proof.
  intros Hl Hs. unfold fill_gaps. destruct segs as [|s0 t] eqn:Es.
  - destruct (create_flat_segment_in_range df 0 (length df - 1) (mean (map plot_grade df)))
      as [f Hf]; [lia | lia |].
    rewrite Hf. cbn [bind]. eauto.
  - rewrite <- Es. rewrite <- Es in Hs.
    assert (Hfold : exists acc, foldM (fill_step df) segs ([], 0) = Ok acc).
    { apply foldM_ok. intros [fl le] seg Hin. rewrite Forall_forall in Hs.
      destruct (Hs seg Hin) as [a0 [Ha0 Hsa]]. unfold fill_step.
      destruct (qlt (le + 50) (start_distance seg)) eqn:Eg; [|eauto].
      apply qlt_spec in Eg.
      destruct (index_first_exists (fun r => qle le (distance r)) df a0 Ha0)
        as [a [Ea Ha]]; [apply qle_spec; rewrite <- Hsa; lra|].
      rewrite Ea. cbn [bind].
      destruct (index_last_exists (fun r => qle (distance r) (start_distance seg)) df a0 Ha0)
        as [b [Eb Hb]]; [apply qle_spec; rewrite Hsa; apply Qle_refl|].
      rewrite Eb. cbn [bind].
      destruct (create_flat_segment_in_range df a b (gap_mean df a b) Ha Hb) as [g Hg].
      rewrite Hg. cbn [bind]. eauto. }
    destruct Hfold as [[filled le] Hf]. rewrite Hf. cbn [bind].
    unfold iloc.
    destruct (nth_error df (length df - 1)) as [lr|] eqn:El;
      [|apply nth_error_None in El; lia].
    cbn [bind].
    destruct (qlt le (distance lr - 50)) eqn:Eq; [|eauto].
    apply qlt_spec in Eq.
    destruct (index_first_exists (fun r => qle le (distance r)) df (length df - 1))
      as [a [Ea Ha]];
      [lia | rewrite (nth_error_nth df _ dummy_row El); apply qle_spec; lra |].
    rewrite Ea. cbn [bind].
    destruct (create_flat_segment_in_range df a (length df - 1)
                (gap_mean df a (length df - 1)) Ha ltac:(lia)) as [g Hg].
    rewrite Hg. cbn [bind]. destruct (qlt 50 _); eauto.
Qed.

Lemma fill_fold_keeps df segs filled le out :
  foldM (fill_step df) segs (filled, le) = Ok out ->
  (forall s, In s filled \/ In s segs -> In s (fst out)) /\
  (forall s, In s (fst out) -> In s filled \/ In s segs \/ 50 < seg_distance s).
Proof.
  revert filled le. induction segs as [|seg rest IH]; intros filled le.
  - intro H; inversion H; subst; clear H. cbn [fst]. split.
    + intros s [Hs|[]]. exact Hs.
    + intros s Hs. left. exact Hs.
  - cbn [foldM]. unfold fill_step at 1.
    destruct (qlt (le + 50) (start_distance seg)).
    + destruct (index_first _) as [a|e]; cbn [bind]; [|discriminate].
      destruct (index_last _) as [b|e]; cbn [bind]; [|discriminate].
      destruct (create_flat_segment df a b (gap_mean df a b)) as [g|e];
        cbn [bind]; [|discriminate].
      destruct (qlt 50 (seg_distance g)) eqn:E50; intro H;
        destruct (IH _ _ H) as [K1 K2]; split.
      * intros s [Hs|[<-|Hs]]; apply K1.
        -- left. apply in_or_app. left. apply in_or_app. left. exact Hs.
        -- left. apply in_or_app. right. left. reflexivity.
        -- right. exact Hs.
      * intros s Hs. destruct (K2 s Hs) as [Hs'|[Hs'|Hs']].
        -- apply in_app_or in Hs'. destruct Hs' as [Hs'|[<-|[]]].
           ++ apply in_app_or in Hs'. destruct Hs' as [Hs'|[<-|[]]]; [left; exact Hs'|].
              right; right. apply qlt_spec. exact E50.
           ++ right; left; left; reflexivity.
        -- right; left; right; exact Hs'.
        -- right; right; exact Hs'.
      * intros s [Hs|[<-|Hs]]; apply K1.
        -- left. apply in_or_app. left. exact Hs.
        -- left. apply in_or_app. right. left. reflexivity.
        -- right. exact Hs.
      * intros s Hs. destruct (K2 s Hs) as [Hs'|[Hs'|Hs']].
        -- apply in_app_or in Hs'. destruct Hs' as [Hs'|[<-|[]]]; [left; exact Hs'|].
           right; left; left; reflexivity.
        -- right; left; right; exact Hs'.
        -- right; right; exact Hs'.
    + cbn [bind]. intro H. destruct (IH _ _ H) as [K1 K2]. split.
      * intros s [Hs|[<-|Hs]]; apply K1.
        -- left. apply in_or_app. left. exact Hs.
        -- left. apply in_or_app. right. left. reflexivity.
        -- right. exact Hs.
      * intros s Hs. destruct (K2 s Hs) as [Hs'|[Hs'|Hs']].
        -- apply in_app_or in Hs'. destruct Hs' as [Hs'|[<-|[]]]; [left; exact Hs'|].
           right; left; left; reflexivity.
        -- right; left; right; exact Hs'.
        -- right; right; exact Hs'.
Qed.

(** [_fill_gaps] succeeds on a non-empty frame whenever each candidate starts
    at the distance of one of its rows (so the [.index[0]] and [.index[-1]]
    lookups find a row).  Given candidates, its result keeps every one of
    them, and every other record in it is a filler longer than 50 m. *)
Theorem fill_gaps_candidates :
  (forall df segs, (1 <= length df)%nat ->
     Forall (fun s => exists a, (a < length df)%nat /\
                                start_distance s = distance (nth a df dummy_row)) segs ->
     exists out, fill_gaps df segs = Ok out) /\
  (forall df segs out, segs <> [] -> fill_gaps df segs = Ok out ->
     (forall s, In s segs -> In s out) /\
     (forall s, In s out -> In s segs \/ 50 < seg_distance s)).
Proof.
  split; [exact fill_gaps_ok|].
  intros df segs out Hne. unfold fill_gaps. destruct segs as [|s0 t] eqn:Es; [congruence|].
  rewrite <- Es.
  destruct (foldM (fill_step df) segs ([], 0)) as [[filled le]|e] eqn:Ef;
    cbn [bind]; [|discriminate].
  destruct (fill_fold_keeps df segs [] 0 _ Ef) as [K1 K2]. cbn [fst] in K1, K2.
  assert (K1' : forall s, In s segs -> In s filled) by (intros s Hs; apply K1; right; exact Hs).
  assert (K2' : forall s, In s filled -> In s segs \/ 50 < seg_distance s)
    by (intros s Hs; destruct (K2 s Hs) as [[]|[H|H]]; [left|right]; exact H).
  destruct (iloc df (length df - 1)) as [lr|e]; cbn [bind]; [|discriminate].
  destruct (qlt _ _); [|intro H; inversion H; subst; split; assumption].
  destruct (index_first _) as [a|e]; cbn [bind]; [|discriminate].
  destruct (create_flat_segment df a (length df - 1) (gap_mean df a (length df - 1)))
    as [g|e]; cbn [bind]; [|discriminate].
  destruct (qlt 50 (seg_distance g)) eqn:E50; intro H; inversion H; subst; clear H;
    [|split; assumption].
  split.
  - intros s Hs. apply in_or_app. left. exact (K1' s Hs).
  - intros s Hs. apply in_app_or in Hs. destruct Hs as [Hs|[<-|[]]]; [exact (K2' s Hs)|].
    right. apply qlt_spec. exact E50.
Qed.

Lemma fill_gaps_candidates_witness :
  exists out,
    fill_gaps (profile_rows step_alt step_dist 1)
      (detect_climbs climb_defaults (profile_rows step_alt step_dist 1)) = Ok out /\
    forall s, In s out ->
      In s (detect_climbs climb_defaults (profile_rows step_alt step_dist 1)) \/
      50 < seg_distance s.
Proof.
  assert (H1 : (1 <= length (profile_rows step_alt step_dist 1))%nat) by (vm_compute; lia).
  assert (H2 : Forall (fun s => exists a, (a < length (profile_rows step_alt step_dist 1))%nat /\
                 start_distance s = distance (nth a (profile_rows step_alt step_dist 1) dummy_row))
                 (detect_climbs climb_defaults (profile_rows step_alt step_dist 1))).
  { vm_compute. constructor; [|constructor]. exists 4%nat. split; [lia | reflexivity]. }
  destruct (proj1 fill_gaps_candidates _ _ H1 H2) as [out Hout].
  {   assert (H3 : detect_climbs climb_defaults (profile_rows step_alt step_dist 1) <> [])
    by (vm_compute; discriminate).
  exists out. split; [exact Hout|].
  exact (proj2 (proj2 fill_gaps_candidates (profile_rows step_alt step_dist 1)
                 (detect_climbs climb_defaults (profile_rows step_alt step_dist 1)) out H3 Hout)). }
Defined.

(** ** When [cut_segment] succeeds *)

Lemma validate_descent_total l pts st ml mg c :
  well_formed_coords c -> exists l', validate_and_append_descent l pts st ml mg c = Ok l'.
Proof.
  intro Hw. unfold validate_and_append_descent.
  destruct (length pts <? 2)%nat; [eauto|].
  destruct (_ || _)%bool; [eauto|]. cbv zeta.
  destruct (_ && py_truthy c)%bool.
  - destruct (count_sharp_turns_ok pts c Hw) as [n Hn]. rewrite Hn. cbn [bind]. eauto.
  - cbn [bind]. eauto.
Qed.

Lemma descent_run_total P df c n :
  well_formed_coords c -> exists s, descent_run P df c n = Ok s.
Proof.
  intro Hw. induction n as [|n [s0 IH]]; [exists detector_init; reflexivity|].
  rewrite descent_run_S, IH. cbn [bind]. unfold descent_step. cbv zeta.
  destruct (state s0); try (destruct (qle _ _); eauto); try eauto.
  destruct (_ || _)%bool; [|eauto].
  match goal with |- context [validate_and_append_descent ?l ?p ?st ?ml ?mg c] =>
    destruct (validate_descent_total l p st ml mg c Hw) as [ds Hds]; rewrite Hds end.
  cbn [bind]. eauto.
Qed.

Lemma detect_descents_total P df c :
  well_formed_coords c -> exists ds, detect_descents P df c = Ok ds.
Proof.
  intro Hw. unfold detect_descents.
  destruct (descent_run_total P df c (length df - 1) Hw) as [s Hs]. rewrite Hs. cbn [bind].
  destruct (state s); destruct (segment_points s); eauto; apply validate_descent_total; exact Hw.
Qed.

Lemma smoothing_window_nonneg w n : (0 <= w)%Z -> (0 <= smoothing_window w n)%Z.
Proof.
  intro Hw. unfold smoothing_window. destruct (Z.even _); lia.
Qed.

Lemma apply_smoothing_total g w : (0 <= w)%Z -> exists pg, apply_smoothing g w = Ok pg.
Proof.
  intro Hw. unfold apply_smoothing. cbv zeta.
  replace (smoothing_window w (length g) <? 0)%Z with false
    by (symmetry; apply Z.ltb_ge; apply smoothing_window_nonneg; exact Hw).
  eauto.
Qed.

(** [cut_segment] returns a segment list, without any exception, whenever
    the altitude and distance profiles have one length, the smoothing window
    is non-negative, and the coordinates are absent or a Python list of one
    [(lat, lon)] float pair per sample.  (A numpy array is not a [pyval]:
    an N x 2 array would raise [ValueError] in the truth test of
    [coordinates] for a categorized descent.) *)
Theorem cut_segment_total alt dist c w :
  length alt = length dist -> (0 <= w)%Z ->
  (c = PyNone \/ exists cs, c = PyList (map coord_pair cs) /\ length cs = length alt) ->
  exists segs, cut_segment alt dist c w = Ok segs.
Proof.
  intros Hl Hw Hc.
  assert (Hwf : well_formed_coords c)
    by (destruct Hc as [->|[cs [-> _]]]; [left; reflexivity | right; exists cs; reflexivity]).
  assert (Hcol : exists la lo, coordinate_columns c (length alt) = (la, lo) /\
                   length la = length alt /\ length lo = length alt).
  { destruct Hc as [->|[cs [-> Hcs]]].
    - exists (repeat 0 (length alt)), (repeat 0 (length alt)).
      split; [reflexivity|]. rewrite repeat_length. split; reflexivity.
    - rewrite coordinate_columns_pairs. exists (map fst cs), (map snd cs).
      rewrite !length_map. split; [reflexivity|]. split; exact Hcs. }
  destruct Hcol as [la [lo [Ecol [Hla Hlo]]]].
  unfold cut_segment. rewrite Ecol. cbv beta iota.
  unfold make_frame at 1. rewrite Hla, Hlo, <- Hl, Nat.eqb_refl. cbn [andb bind].
  match goal with |- context [(length ?d <? 2)%nat] => set (df := d) end.
  destruct (length df <? 2)%nat eqn:E2; [eauto|]. apply Nat.ltb_ge in E2.
  destruct (apply_smoothing_total (calculate_grades df) w Hw) as [pg Hpg].
  rewrite Hpg. cbn [bind].
  set (rows := add_columns df (calculate_grades df) pg).
  destruct (detect_descents_total descent_defaults rows c Hwf) as [ds Hds].
  rewrite Hds. cbn [bind].
  assert (Hrows : length rows = length df).
  { unfold rows, add_columns. rewrite length_zip_with, length_zip_pair.
    rewrite (apply_smoothing_length _ _ _ Hpg), length_calculate_grades. lia. }
  apply fill_gaps_ok; [lia|].
  apply Forall_forall. intros x Hx.
  apply (proj1 (proj2 (sort_by_start_spec (detect_climbs climb_defaults rows ++ ds)) x)) in Hx.
  apply in_app_or in Hx.
  assert (Hcand : cand_ok rows x).
  { destruct Hx as [Hx|Hx].
    - exact (proj1 (Forall_forall _ _) (detect_climbs_cands climb_defaults rows) x Hx).
    - exact (proj1 (Forall_forall _ _) (detect_descents_cands _ _ _ _ Hds) x Hx). }
  destruct Hcand as [a [b [Hab [Hb [Hs _]]]]].
  exists a. split; [lia | exact Hs].
Qed.

Lemma cut_segment_total_witness :
  exists segs, cut_segment drop_alt rise_dist
    (PyList (map coord_pair (map (fun d => (d, 0)) rise_dist))) 3%Z = Ok segs.
Proof.
  apply cut_segment_total; [reflexivity | lia |].
  right. exists (map (fun d => (d, 0)) rise_dist). split; [reflexivity | vm_compute; reflexivity].
Defined.

(** ** The order of the detected records *)

Lemma validate_climb_idx l pts st ml mg :
  validate_and_append_climb l pts st ml mg = l \/
  exists r, validate_and_append_climb l pts st ml mg = l ++ [r] /\
    seg_start_idx r = st /\ seg_end_idx r = (st + length pts - 1)%nat.
Proof.
  unfold validate_and_append_climb. cbv zeta.
  destruct (_ <? _)%nat; [left; reflexivity|].
  destruct (_ || _)%bool; [left; reflexivity|].
  right. eexists. split; [reflexivity|]. split; reflexivity.
Qed.

Lemma validate_descent_idx l pts st ml mg c l' :
  validate_and_append_descent l pts st ml mg c = Ok l' ->
  l' = l \/
  exists r, l' = l ++ [r] /\ seg_start_idx r = st /\ seg_end_idx r = (st + length pts - 1)%nat.
Proof.
  unfold validate_and_append_descent. cbv zeta.
  destruct (_ <? _)%nat; [intro H; injection H as <-; left; reflexivity|].
  destruct (_ || _)%bool; [intro H; injection H as <-; left; reflexivity|].
  destruct (_ && _)%bool.
  - destruct (count_sharp_turns pts c); cbn [bind]; [|discriminate].
    intro H; injection H as <-. right. eexists. split; [reflexivity|]. split; reflexivity.
  - cbn [bind]. intro H; injection H as <-.
    right. eexists. split; [reflexivity|]. split; reflexivity.
Qed.

Lemma ordered_snoc l r n :
  StronglySorted seg_before l -> (forall x, In x l -> seg_before x r) ->
  (forall x, In x l -> (seg_end_idx x < n)%nat) -> (seg_end_idx r < n)%nat ->
  StronglySorted seg_before (l ++ [r]) /\ forall x, In x (l ++ [r]) -> (seg_end_idx x < n)%nat.
Proof.
  intros Hs Hb Hl Hr. split; [apply SS_snoc; assumption|].
  intros x Hx. apply in_app_or in Hx. destruct Hx as [Hx|[<-|[]]]; [apply Hl; exact Hx | exact Hr].
Qed.

Lemma climb_step_ordered P df n s :
  climb_inv P df n s -> (S n < length df)%nat -> found_ordered n s ->
  found_ordered (S n) (climb_step P df s (S n)).
Proof.
  intros Hinv Hlen [Hs [Hn Ho]]. unfold climb_inv in Hinv. unfold climb_step.
  replace (S n - 1)%nat with n by lia. cbv zeta.
  destruct (state s) eqn:Est.
  - destruct (qle _ _); unfold found_ordered; cbn [found state start_idx].
    + split; [exact Hs|]. split; [intros r Hr; apply Hn in Hr; lia|].
      intros _ r Hr. apply Hn. exact Hr.
    + split; [exact Hs|]. split; [intros r Hr; apply Hn in Hr; lia|].
      rewrite Est. intros Hne. congruence.
  - assert (Ho' := Ho ltac:(discriminate)).
    destruct (qle _ _); unfold found_ordered; cbn [found state start_idx];
      (split; [exact Hs|]; split; [intros r Hr; apply Hn in Hr; lia|]; intros _; exact Ho').
  - contradiction.
  - assert (Ho' := Ho ltac:(discriminate)).
    destruct Hinv as [H1 [H2 [H3 H4]]].
    destruct (qle _ _).
    + unfold found_ordered; cbn [found state start_idx].
      split; [exact Hs|]. split; [intros r Hr; apply Hn in Hr; lia|]. intros _; exact Ho'.
    + destruct (_ || _)%bool.
      * unfold found_ordered; cbn [found state start_idx].
        rewrite H3, <- slice_extend by lia. rewrite py_slice_neg_slice by lia.
        split; [|split].
        -- destruct (validate_climb_idx (found s) (slice df (start_idx s) (pause_start_idx s))
                       (start_idx s) (min_length_m P) (min_change_m P)) as [->|[r [-> [Ha Hb]]]];
             [exact Hs|].
           apply SS_snoc; [exact Hs|]. intros x Hx. unfold seg_before. rewrite Ha. apply Ho'. exact Hx.
        -- destruct (validate_climb_idx (found s) (slice df (start_idx s) (pause_start_idx s))
                       (start_idx s) (min_length_m P) (min_change_m P)) as [->|[r [-> [Ha Hb]]]].
           ++ intros r Hr. apply Hn in Hr. lia.
           ++ rewrite length_slice in Hb by lia.
              intros x Hx. apply in_app_or in Hx.
              destruct Hx as [Hx|[<-|[]]]; [apply Hn in Hx; lia | lia].
        -- intro Hne. congruence.
      * unfold found_ordered; cbn [found state start_idx].
        split; [exact Hs|]. split; [intros r Hr; apply Hn in Hr; lia|]. intros _; exact Ho'.
Qed.

Lemma climb_run_ordered P df n :
  (n < length df)%nat -> found_ordered n (climb_run P df n).
Proof.
  induction n as [|n IH]; intro H.
  - split; [constructor|]. split; [intros r []|]. intros _ r [].
  - rewrite climb_run_S. apply climb_step_ordered; [apply climb_run_inv; lia | exact H |].
    apply IH. lia.
Qed.

Lemma descent_step_ordered P df c n s s' :
  descent_inv P df n s -> (S n < length df)%nat -> found_ordered n s ->
  descent_step P df c s (S n) = Ok s' -> found_ordered (S n) s'.
Proof.
  intros Hinv Hlen [Hs [Hn Ho]]. unfold descent_inv in Hinv. unfold descent_step.
  replace (S n - 1)%nat with n by lia. cbv zeta.
  destruct (state s) eqn:Est.
  - destruct (qle _ _); intro H; injection H as <-; unfold found_ordered;
      cbn [found state start_idx].
    + split; [exact Hs|]. split; [intros r Hr; apply Hn in Hr; lia|].
      intros _ r Hr. apply Hn. exact Hr.
    + split; [exact Hs|]. split; [intros r Hr; apply Hn in Hr; lia|].
      rewrite Est. intros Hne. congruence.
  - contradiction.
  - assert (Ho' := Ho ltac:(discriminate)).
    destruct (qle _ _); intro H; injection H as <-; unfold found_ordered;
      cbn [found state start_idx];
      (split; [exact Hs|]; split; [intros r Hr; apply Hn in Hr; lia|]; intros _; exact Ho').
  - assert (Ho' := Ho ltac:(discriminate)).
    destruct Hinv as [H1 [H2 [H3 H4]]].
    destruct (qle _ _).
    + intro H; injection H as <-. unfold found_ordered; cbn [found state start_idx].
      split; [exact Hs|]. split; [intros r Hr; apply Hn in Hr; lia|]. intros _; exact Ho'.
    + destruct (_ || _)%bool.
      * rewrite H3, <- slice_extend by lia. rewrite py_slice_neg_slice by lia.
        destruct (validate_and_append_descent _ _ _ _ _ _) as [ds|e] eqn:Hv;
          cbn [bind]; intro H; [injection H as <-|discriminate].
        unfold found_ordered; cbn [found state start_idx].
        destruct (validate_descent_idx _ _ _ _ _ _ _ Hv) as [->|[r [-> [Ha Hb]]]].
        -- split; [exact Hs|]. split; [intros r Hr; apply Hn in Hr; lia|].
           intro Hne. congruence.
        -- rewrite length_slice in Hb by lia.
           destruct (ordered_snoc (found s) r (S n) Hs) as [K1 K2].
           ++ intros x Hx. unfold seg_before. rewrite Ha. apply Ho'. exact Hx.
           ++ intros x Hx. apply Hn in Hx. lia.
           ++ lia.
           ++ split; [exact K1|]. split; [exact K2|]. intro Hne. congruence.
      * intro H; injection H as <-. unfold found_ordered; cbn [found state start_idx].
        split; [exact Hs|]. split; [intros r Hr; apply Hn in Hr; lia|]. intros _; exact Ho'.
Qed.

Lemma descent_run_ordered P df c n s :
  (n < length df)%nat -> descent_run P df c n = Ok s -> found_ordered n s.
Proof.
  revert s; induction n as [|n IH]; intros s H Hr.
  - injection Hr as <-. split; [constructor|]. split; [intros r []|]. intros _ r [].
  - rewrite descent_run_S in Hr.
    destruct (descent_run P df c n) as [s0|e] eqn:E0; [|discriminate].
    cbn [bind] in Hr. destruct (descent_run_inv P df c n s0 ltac:(lia) E0) as [Hi _].
    exact (descent_step_ordered P df c n s0 s Hi H (IH s0 ltac:(lia) eq_refl) Hr).
Qed.

(** The records of [_detect_climbs], and those of [_detect_descents], come
    in the order of the rows they span, and no two of them share a row: the
    end index of each is below the start index of the next. *)
Theorem detector_records_disjoint :
  (forall P df, StronglySorted seg_before (detect_climbs P df)) /\
  (forall P df c ds, detect_descents P df c = Ok ds -> StronglySorted seg_before ds).
Proof.
  split.
  - intros P df. unfold detect_climbs.
    destruct (length df) as [|m] eqn:Hlen; [constructor|].
    replace (S m - 1)%nat with m by lia.
    pose proof (climb_run_inv P df m ltac:(lia)) as Hinv.
    destruct (climb_run_ordered P df m ltac:(lia)) as [Hs [Hn Ho]].
    unfold climb_inv in Hinv.
    destruct (state (climb_run P df m)) eqn:Est;
      destruct (segment_points (climb_run P df m)) as [|p0 pt] eqn:Ep; try exact Hs.
    + destruct Hinv as [H1 H2]. rewrite H2.
      destruct (validate_climb_idx (found (climb_run P df m)) (slice df (start_idx (climb_run P df m)) m)
                  (start_idx (climb_run P df m)) (min_length_m P) (min_change_m P))
        as [->|[rc [-> [Ha _]]]]; [exact Hs|].
      apply SS_snoc; [exact Hs|]. intros x Hx. unfold seg_before. rewrite Ha.
      apply Ho; [discriminate | exact Hx].
    + destruct Hinv as [H1 [H2 [H3 H4]]]. rewrite H3.
      destruct (validate_climb_idx (found (climb_run P df m)) (slice df (start_idx (climb_run P df m)) m)
                  (start_idx (climb_run P df m)) (min_length_m P) (min_change_m P))
        as [->|[rc [-> [Ha _]]]]; [exact Hs|].
      apply SS_snoc; [exact Hs|]. intros x Hx. unfold seg_before. rewrite Ha.
      apply Ho; [discriminate | exact Hx].
  - intros P df c ds. unfold detect_descents.
    destruct (length df) as [|m] eqn:Hlen; [cbn; intro H; injection H as <-; constructor|].
    replace (S m - 1)%nat with m by lia.
    destruct (descent_run P df c m) as [s|e] eqn:Er; [|discriminate]. cbn [bind].
    destruct (descent_run_inv P df c m s ltac:(lia) Er) as [Hinv _].
    destruct (descent_run_ordered P df c m s ltac:(lia) Er) as [Hs [Hn Ho]].
    unfold descent_inv in Hinv.
    destruct (state s) eqn:Est; destruct (segment_points s) as [|p0 pt] eqn:Ep;
      try (intro H; injection H as <-; exact Hs).
    + intro Hv. destruct (validate_descent_idx _ _ _ _ _ _ _ Hv) as [->|[rc [-> [Ha _]]]];
        [exact Hs|].
      apply SS_snoc; [exact Hs|]. intros x Hx. unfold seg_before. rewrite Ha.
      apply Ho; [discriminate | exact Hx].
    + intro Hv. destruct (validate_descent_idx _ _ _ _ _ _ _ Hv) as [->|[rc [-> [Ha _]]]];
        [exact Hs|].
      apply SS_snoc; [exact Hs|]. intros x Hx. unfold seg_before. rewrite Ha.
      apply Ho; [discriminate | exact Hx].
Qed.

Lemma detector_records_disjoint_witness :
  exists ds, detect_descents descent_defaults (profile_rows drop_alt rise_dist 10) PyNone = Ok ds /\
    StronglySorted seg_before ds.
Proof.
  eexists. split; [vm_compute; reflexivity|].
  apply (proj2 detector_records_disjoint descent_defaults
           (profile_rows drop_alt rise_dist 10) PyNone).
  vm_compute. reflexivity.
Defined.

